(** * scp-coghaz-maker: fractal rendering and pixel-shift corruption

    A shallow embedding of [src/coghaz.py] (the function [corrupt]) and of
    [src/fractal.py] ([gaussian], [gradient] and the three fractal
    generators), followed by the properties of the specification that were
    checked against it.

    Modelling conventions.
    - A Python [float] is a real number ([R]): arithmetic is exact, and the
      only float behaviour kept is that a division by zero raises
      [ZeroDivisionError].  A Python [complex] is a pair of reals.  The
      [OverflowError] of [**] and [abs] on values near the largest float
      and the underflow of a product to zero are outside the model.
    - A Python [int] is an integer ([Z]); image dimensions, which numpy
      requires to be non-negative, are natural numbers.
    - A numpy array of shape (height, width, 3) and dtype [int8] is a list of
      rows, a row is a list of pixels, a pixel is a triple of integers in
      [-128, 127].  Arithmetic on such arrays wraps modulo 256.
    - A call either returns a value or raises: the type [exc]. *)

From Stdlib Require Import String Bool Arith ZArith Lia List.
From Stdlib Require Import Reals Lra.
From Stdlib Require Import Permutation.
Import ListNotations.

Set Implicit Arguments.

(** ** Exceptions *)

Inductive exception : Type :=
| AssertionError (msg : string)
| ValueError
| ZeroDivisionError
| IndexError
| TypeError.

Inductive exc (A : Type) : Type :=
| Ok (a : A)
| Raise (e : exception).

Arguments Ok {A} a.
Arguments Raise {A} e.

Definition bind {A B : Type} (m : exc A) (k : A -> exc B) : exc B :=
  match m with
  | Ok a => k a
  | Raise e => Raise e
  end.

Notation "x <- m ;; k" := (bind m (fun x => k))
  (at level 61, m at next level, right associativity).
Notation "' pat <- m ;; k" := (bind m (fun x => match x with pat => k end))
  (at level 61, pat pattern, m at next level, right associativity).

(** ** Pixel buffers: numpy arrays of dtype int8 *)

Module Int8.

Definition wrap (z : Z) : Z := ((z + 128) mod 256 - 128)%Z.

Definition in_range (z : Z) : Prop := (-128 <= z <= 127)%Z.

Definition add (a b : Z) : Z := wrap (a + b).

End Int8.

Definition pixel : Type := (Z * Z * Z)%type.
Definition row : Type := list pixel.
Definition buffer : Type := list row.

Definition zero_pixel : pixel := (0, 0, 0)%Z.

Definition add_pixel (p q : pixel) : pixel :=
  let '(r1, g1, b1) := p in
  let '(r2, g2, b2) := q in
  (Int8.add r1 r2, Int8.add g1 g2, Int8.add b1 b2).

Fixpoint map2 {A B C : Type} (f : A -> B -> C) (l : list A) (l' : list B) : list C :=
  match l, l' with
  | a :: t, b :: t' => f a b :: map2 f t t'
  | _, _ => []
  end.

Definition add_row (r1 r2 : row) : row := map2 add_pixel r1 r2.

(** [a + b] for two arrays of the same shape. *)
Definition add_buffer (a b : buffer) : buffer := map2 add_row a b.

(** [np.zeros_like(src)]. *)
Definition zeros_like (src : buffer) : buffer :=
  map (map (fun _ : pixel => zero_pixel)) src.

(** [np.zeros((height, width, 3), np.int8)]. *)
Definition zeros (height width : nat) : buffer :=
  repeat (repeat zero_pixel width) height.

Definition pixel_in_range (p : pixel) : Prop :=
  let '(r, g, b) := p in Int8.in_range r /\ Int8.in_range g /\ Int8.in_range b.

(** An int8 array of shape (height, width, 3). *)
Definition has_shape (height width : nat) (a : buffer) : Prop :=
  length a = height /\ Forall (fun r : row => length r = width) a.

Definition int8_buffer (a : buffer) : Prop :=
  Forall (Forall pixel_in_range) a.

(** ** Python slices along the first axis *)

(** The position a slice bound [i] denotes in a sequence of length [n]:
    negative bounds count from the end, and the result is clamped to [0, n]. *)
Definition slice_index (n : nat) (i : Z) : nat :=
  let i' := if (i <? 0)%Z then (i + Z.of_nat n)%Z else i in
  Z.to_nat (Z.min (Z.max i' 0) (Z.of_nat n)).

(** [start:stop], a missing bound being [None]. *)
Definition slice_bounds (n : nat) (start stop : option Z) : nat * nat :=
  (match start with None => 0 | Some s => slice_index n s end,
   match stop with None => n | Some s => slice_index n s end).

(** [a[start:stop]]. *)
Definition getslice {A : Type} (a : list A) (start stop : option Z) : list A :=
  let '(lo, hi) := slice_bounds (length a) start stop in
  firstn (hi - lo) (skipn lo a).

(** [a[start:stop] = val] for numpy arrays whose trailing dimensions agree
    (here both are slices of arrays of one shape): the value must have as
    many rows as the target, or one row, which is then broadcast. *)
Definition setslice (a : buffer) (start stop : option Z) (val : buffer) : exc buffer :=
  let '(lo, hi) := slice_bounds (length a) start stop in
  let m := hi - lo in
  if length val =? m then Ok (firstn lo a ++ val ++ skipn (lo + m) a)
  else match val with
       | [r] => Ok (firstn lo a ++ repeat r m ++ skipn (lo + m) a)
       | _ => Raise ValueError
       end.

(** [a[vstart:vstop][start:stop] = val]: basic slicing returns a view, so
    the assignment into the view writes through to [a]. *)
Definition setslice_through_view (a : buffer) (vstart vstop start stop : option Z)
  (val : buffer) : exc buffer :=
  let '(lo, _) := slice_bounds (length a) vstart vstop in
  let view := getslice a vstart vstop in
  view' <- setslice view start stop val ;;
  Ok (firstn lo a ++ view' ++ skipn (lo + length view) a).

(** ** coghaz.py: corrupt *)

(** [corrupt(src, offset, axis)].  A call with an axis other than ['y'] and
    ['x'] falls off the end of the function and returns [None]. *)
Definition corrupt (src : buffer) (offset : Z) (axis : string) : exc (option buffer) :=
  if String.eqb axis "y" then
    let offset_pix := zeros_like src in
    offset_pix <- setslice offset_pix None (Some (- offset)%Z)
                    (getslice src (Some offset) None) ;;
    Ok (Some (add_buffer src offset_pix))
  else if String.eqb axis "x" then
    let offset_pix := zeros_like src in
    offset_pix <- setslice_through_view offset_pix None None None (Some (- offset)%Z)
                    (getslice (getslice src None None) (Some offset) None) ;;
    Ok (Some (add_buffer src offset_pix))
  else Ok None.

(** What the specification's words ask of the ['x'] axis: every row is
    shifted by [offset] columns toward the origin and added to itself. *)
Definition spec_shift_row (offset : nat) (r : row) : row :=
  add_row r (skipn offset r ++ repeat zero_pixel (Nat.min offset (length r))).

Definition spec_corrupt_x (src : buffer) (offset : nat) : buffer :=
  map (spec_shift_row offset) src.

(** ** fractal.py: gaussian and gradient *)

Open Scope R_scope.

(** Float division [a / b]. *)
Definition true_div (a b : R) : exc R :=
  if Req_dec_T b 0 then Raise ZeroDivisionError else Ok (a / b).

(** [gaussian(x, a, b, c, d)]:
    [a * math.exp(-(x - b)**2 / (2 * c**2)) + d]. *)
Definition gaussian (x a b c d : R) : exc R :=
  q <- true_div (- (x - b) ^ 2) (2 * c ^ 2) ;;
  Ok (a * exp q + d).

(** A control point [[location, (r, g, b)]]. *)
Definition control_point : Type := (R * (R * R * R))%type.

Definition location (p : control_point) : R := fst p.
Definition red (p : control_point) : R := fst (fst (snd p)).
Definition green (p : control_point) : R := snd (fst (snd p)).
Definition blue (p : control_point) : R := snd (snd p).

(** A list comprehension whose element expression may raise. *)
Fixpoint comprehension {A B : Type} (f : A -> exc B) (l : list A) : exc (list B) :=
  match l with
  | [] => Ok []
  | a :: t => b <- f a ;; bs <- comprehension f t ;; Ok (b :: bs)
  end.

(** The builtin [sum] of a list of floats. *)
Definition sum (l : list R) : R := fold_left Rplus l 0.

(** One channel of [gradient]:
    [sum([gaussian(x, p[1][k], p[0] * width, width/(spread*len(map))) for p in map])]. *)
Definition channel_sum (channel : control_point -> R) (x width : R)
  (cmap : list control_point) (spread : R) : exc R :=
  l <- comprehension
         (fun p => c <- true_div width (spread * INR (length cmap)) ;;
                   gaussian x (channel p) (location p * width) c 0) cmap ;;
  Ok (sum l).

(** [gradient(x, width, map, spread)]. *)
Definition gradient (x width : R) (cmap : list control_point) (spread : R)
  : exc (R * R * R) :=
  r <- channel_sum red x width cmap spread ;;
  g <- channel_sum green x width cmap spread ;;
  b <- channel_sum blue x width cmap spread ;;
  Ok (Rmin 1 r, Rmin 1 g, Rmin 1 b).

(** ** fractal.py: what the three generators share *)

(** [np.linspace(start, stop, num)] with the default [endpoint=True]. *)
Definition linspace (start stop : R) (num : nat) : list R :=
  match num with
  | O => []
  | S O => [start]
  | S div =>
      map (fun k => INR k * ((stop - start) / INR div) + start) (seq 0 div) ++ [stop]
  end.

(** Storing a float into an int8 array: the fraction is dropped (toward
    zero) and the integer wraps into [-128, 127]. *)
Definition trunc (v : R) : Z := if Rle_dec 0 v then Zfloor v else Zceil v.

Definition store_int8 (v : R) : Z := Int8.wrap (trunc v).

Definition store_pixel (rgb : R * R * R) : pixel :=
  let '(r, g, b) := rgb in
  (store_int8 (255 * r), store_int8 (255 * g), store_int8 (255 * b)).

(** The pixel the loop body stores for the coordinate [(x, y)]. *)
Definition pixel_of (color : R -> R -> exc (R * R * R)) (x y : R) : exc pixel :=
  rgb <- color x y ;; Ok (store_pixel rgb).

Fixpoint list_set {A : Type} (n : nat) (v : A) (l : list A) : list A :=
  match l, n with
  | [], _ => []
  | _ :: t, O => v :: t
  | a :: t, S n' => a :: list_set n' v t
  end.

(** [pix[j][i]]. *)
Definition getitem (pix : buffer) (j i : nat) : option pixel :=
  match nth_error pix j with
  | None => None
  | Some r => nth_error r i
  end.

(** [pix[j][i] = p]; an index past the end raises. *)
Definition setitem (pix : buffer) (j i : nat) (p : pixel) : exc buffer :=
  match nth_error pix j with
  | None => Raise IndexError
  | Some r =>
      if (i <? length r)%nat then Ok (list_set j (list_set i p r) pix)
      else Raise IndexError
  end.

(** [for i, x in enumerate(xs): body], the loop state threaded through;
    an exception leaves the loop. *)
Fixpoint for_enumerate_from {A S : Type} (i : nat) (xs : list A)
  (body : nat -> A -> S -> exc S) (s : S) : exc S :=
  match xs with
  | [] => Ok s
  | x :: xs' => s' <- body i x s ;; for_enumerate_from (Datatypes.S i) xs' body s'
  end.

Definition for_enumerate {A S : Type} (xs : list A)
  (body : nat -> A -> S -> exc S) (s : S) : exc S :=
  for_enumerate_from 0 xs body s.

(** The body of [generate] common to the three classes: [color x y] is the
    class's way to the triple [(r, g, b)] of the pixel at coordinate
    [(x, y)].  [bounds_x] and [bounds_y] are unpacked into [np.linspace];
    every object built by [__init__] holds two values in each. *)
Definition render (color : R -> R -> exc (R * R * R)) (bounds_x bounds_y : list R)
  (height width : nat) : exc buffer :=
  match bounds_x, bounds_y with
  | [x0; x1], [y0; y1] =>
      let pix := zeros height width in
      for_enumerate (linspace x0 x1 width) (fun i x pix =>
        for_enumerate (linspace y0 y1 height) (fun j y pix =>
          rgb <- color x y ;;
          setitem pix j i (store_pixel rgb)) pix) pix
  | _, _ => Raise TypeError
  end.

Definition assert (b : bool) (msg : string) : exc unit :=
  if b then Ok tt else Raise (AssertionError msg).

(** *** Complex numbers and the escape-time loop *)

Definition complex : Type := (R * R)%type.

(** [abs(z)]. *)
Definition cabs (z : complex) : R := sqrt (fst z * fst z + snd z * snd z).

Definition cadd (z w : complex) : complex := (fst z + fst w, snd z + snd w).

Definition cmul (z w : complex) : complex :=
  (fst z * fst w - snd z * snd w, fst z * snd w + snd z * fst w).

(** [z ** 2 + c]. *)
Definition step (c z : complex) : complex := cadd (cmul z z) c.

(** [while abs(z) < bound_limit and num_iterations < iter_limit:
       z = z ** 2 + c; num_iterations += 1]
    and the value of [num_iterations] after it.  The loop runs at most
    [iter_limit] times, so that much fuel is enough. *)
Fixpoint escape_loop (fuel : nat) (bound_limit : R) (iter_limit : Z) (c z : complex)
  (num_iterations : Z) : Z :=
  match fuel with
  | O => num_iterations
  | S fuel' =>
      if Rlt_dec (cabs z) bound_limit then
        if (num_iterations <? iter_limit)%Z then
          escape_loop fuel' bound_limit iter_limit c (step c z) (num_iterations + 1)%Z
        else num_iterations
      else num_iterations
  end.

Definition escape_iterations (bound_limit : R) (iter_limit : Z) (c z : complex) : Z :=
  escape_loop (Z.to_nat iter_limit) bound_limit iter_limit c z 0.

(** [num_iterations / self.iter_limit], the scalar handed to [gradient]. *)
Definition color_input (num_iterations iter_limit : Z) : exc R :=
  true_div (IZR num_iterations) (IZR iter_limit).

(** The orbit [z_0 = z], [z_(k+1) = z_k ** 2 + c]. *)
Fixpoint orbit (c z : complex) (k : nat) : complex :=
  match k with
  | O => z
  | S k' => orbit c (step c z) k'
  end.

(** ** fractal.py: CustomFractal *)

Module CustomFractal.

Record t : Type := {
  function : R -> R -> R;
  bounds_x : list R;
  bounds_y : list R;
  colormap : list control_point
}.

(** [CustomFractal.__init__]. *)
Definition init (function : R -> R -> R) (bounds_x bounds_y : list R)
  (colormap : list control_point) : exc t :=
  _ <- assert (length bounds_x =? 2)%nat "bounds_x must have two values" ;;
  _ <- assert (length bounds_y =? 2)%nat "bounds_y must have two values" ;;
  _ <- assert (2 <=? length colormap)%nat "colormap must have at least two points" ;;
  Ok {| function := function; bounds_x := bounds_x; bounds_y := bounds_y;
        colormap := colormap |}.

(** [gradient(self.function(x, y), 1, self.colormap)]. *)
Definition color (self : t) (x y : R) : exc (R * R * R) :=
  gradient (function self x y) 1 (colormap self) 1.

(** [CustomFractal.generate]. *)
Definition generate (self : t) (height width : nat) : exc buffer :=
  render (color self) (bounds_x self) (bounds_y self) height width.

End CustomFractal.

(** ** fractal.py: MandelbrotFractal *)

Module MandelbrotFractal.

Record t : Type := {
  bounds_real : list R;
  bounds_imag : list R;
  bound_limit : R;
  iter_limit : Z;
  colormap : list control_point
}.

(** [MandelbrotFractal.__init__]; the parameter [threads] is not used. *)
Definition init (bounds_real bounds_imag : list R) (bound_limit : R) (iter_limit : Z)
  (colormap : list control_point) : exc t :=
  _ <- assert (length bounds_real =? 2)%nat "bounds_real must have two values" ;;
  _ <- assert (length bounds_imag =? 2)%nat "bounds_imag must have two values" ;;
  _ <- assert (2 <=? length colormap)%nat "colormap must have at least two points" ;;
  Ok {| bounds_real := bounds_real; bounds_imag := bounds_imag;
        bound_limit := bound_limit; iter_limit := iter_limit;
        colormap := colormap |}.

(** The value of [num_iterations] for the pixel at [c = complex(x, y)]:
    the loop starts from [z = c]. *)
Definition num_iterations (self : t) (c : complex) : Z :=
  escape_iterations (bound_limit self) (iter_limit self) c c.

(** The scalar handed to [gradient]. *)
Definition scalar (self : t) (c : complex) : exc R :=
  color_input (num_iterations self c) (iter_limit self).

(** [gradient(num_iterations / self.iter_limit, 1, self.colormap)]. *)
Definition color (self : t) (x y : R) : exc (R * R * R) :=
  s <- scalar self (x, y) ;;
  gradient s 1 (colormap self) 1.

(** [MandelbrotFractal.generate]. *)
Definition generate (self : t) (height width : nat) : exc buffer :=
  render (color self) (bounds_real self) (bounds_imag self) height width.

End MandelbrotFractal.

(** ** fractal.py: JuliaFractal *)

Module JuliaFractal.

Record t : Type := {
  c : complex;
  bounds_real : list R;
  bounds_imag : list R;
  bound_limit : R;
  iter_limit : Z;
  colormap : list control_point
}.

(** [JuliaFractal.__init__]; the parameter [threads] is not used. *)
Definition init (c : complex) (bounds_real bounds_imag : list R) (bound_limit : R)
  (iter_limit : Z) (colormap : list control_point) : exc t :=
  _ <- assert (length bounds_real =? 2)%nat "bounds_real must have two values" ;;
  _ <- assert (length bounds_imag =? 2)%nat "bounds_imag must have two values" ;;
  _ <- assert (2 <=? length colormap)%nat "colormap must have at least two points" ;;
  Ok {| c := c; bounds_real := bounds_real; bounds_imag := bounds_imag;
        bound_limit := bound_limit; iter_limit := iter_limit;
        colormap := colormap |}.

(** The loop starts from [z = complex(x, y)] and adds [self.c]. *)
Definition num_iterations (self : t) (z : complex) : Z :=
  escape_iterations (bound_limit self) (iter_limit self) (c self) z.

Definition scalar (self : t) (z : complex) : exc R :=
  color_input (num_iterations self z) (iter_limit self).

Definition color (self : t) (x y : R) : exc (R * R * R) :=
  s <- scalar self (x, y) ;;
  gradient s 1 (colormap self) 1.

(** [JuliaFractal.generate]. *)
Definition generate (self : t) (height width : nat) : exc buffer :=
  render (color self) (bounds_real self) (bounds_imag self) height width.

End JuliaFractal.

(** ** The generators behind one interface *)

Inductive FractalGenerator : Type :=
| Custom (g : CustomFractal.t)
| Mandelbrot (g : MandelbrotFractal.t)
| Julia (g : JuliaFractal.t).

Definition generate (g : FractalGenerator) (height width : nat) : exc buffer :=
  match g with
  | Custom g => CustomFractal.generate g height width
  | Mandelbrot g => MandelbrotFractal.generate g height width
  | Julia g => JuliaFractal.generate g height width
  end.

(** The first-axis bounds ([bounds_x] or [bounds_real]) of a generator. *)
Definition bounds_x (g : FractalGenerator) : list R :=
  match g with
  | Custom g => CustomFractal.bounds_x g
  | Mandelbrot g => MandelbrotFractal.bounds_real g
  | Julia g => JuliaFractal.bounds_real g
  end.

Definition bounds_y (g : FractalGenerator) : list R :=
  match g with
  | Custom g => CustomFractal.bounds_y g
  | Mandelbrot g => MandelbrotFractal.bounds_imag g
  | Julia g => JuliaFractal.bounds_imag g
  end.

Definition colormap (g : FractalGenerator) : list control_point :=
  match g with
  | Custom g => CustomFractal.colormap g
  | Mandelbrot g => MandelbrotFractal.colormap g
  | Julia g => JuliaFractal.colormap g
  end.

(** The colour triple a generator computes for a coordinate. *)
Definition color (g : FractalGenerator) : R -> R -> exc (R * R * R) :=
  match g with
  | Custom g => CustomFractal.color g
  | Mandelbrot g => MandelbrotFractal.color g
  | Julia g => JuliaFractal.color g
  end.

(** The pixel a generator computes for the coordinate [(x, y)]. *)
Definition pixel_at (g : FractalGenerator) (x y : R) : exc pixel :=
  pixel_of (color g) x y.

(** Division by [iter_limit] needs it to be non-zero; the specification
    asks for [iter_limit > 0]. *)
Definition iter_limit_positive (g : FractalGenerator) : Prop :=
  match g with
  | Custom _ => True
  | Mandelbrot g => (0 < MandelbrotFractal.iter_limit g)%Z
  | Julia g => (0 < JuliaFractal.iter_limit g)%Z
  end.

(** What [__init__] has checked of a generator that exists. *)
Definition constructed (g : FractalGenerator) : Prop :=
  length (bounds_x g) = 2%nat /\ length (bounds_y g) = 2%nat /\
  (2 <= length (colormap g))%nat.

(** ** coghaz.py: PerlmanGreeneGenerator *)

Module PerlmanGreeneGenerator.

(** The values one render pass of [generate] takes from [random], in the
    order the source draws them: the angle, the two sizes, [bound_limit],
    [iter_limit], the location and the three [random.random()] values of
    each interior control point, and the offset of the corruption. *)
Record draws : Type := {
  radians : R;
  real_size : R;
  imag_size : R;
  bound_limit : Z;
  iter_limit : Z;
  location1 : R;
  random1 : R * R * R;
  location2 : R;
  random2 : R * R * R;
  offset : Z
}.

(** Three values of [random.random()], each in [0, 1). *)
Definition unit_draw (rgb : R * R * R) : Prop :=
  let '(r, g, b) := rgb in 0 <= r < 1 /\ 0 <= g < 1 /\ 0 <= b < 1.

(** What [random] promises of the draws of a pass whose offset is
    [random.randint(lo, hi)]: [uniform(0.0, 6.28)], [uniform(0.75, 1.5)]
    twice, [randint(500, 1000)], [randint(50, 100)], [uniform(0.1, 0.5)],
    [uniform(0.6, 0.9)] and [random()] six times. *)
Definition drawn (lo hi : Z) (d : draws) : Prop :=
  0 <= radians d <= 6.28 /\
  0.75 <= real_size d <= 1.5 /\ 0.75 <= imag_size d <= 1.5 /\
  (500 <= bound_limit d <= 1000)%Z /\ (50 <= iter_limit d <= 100)%Z /\
  0.1 <= location1 d <= 0.5 /\ unit_draw (random1 d) /\
  0.6 <= location2 d <= 0.9 /\ unit_draw (random2 d) /\
  (lo <= offset d <= hi)%Z.

(** [real_bound = math.cos(radians) * 0.5 - 0.5]. *)
Definition real_bound (d : draws) : R := cos (radians d) * 0.5 - 0.5.

(** [imag_bound = math.sin(radians) * 0.5 - 0.5]. *)
Definition imag_bound (d : draws) : R := sin (radians d) * 0.5 - 0.5.

(** [(real_bound, real_bound + real_size)]. *)
Definition bounds_real (d : draws) : list R :=
  [real_bound d; real_bound d + real_size d].

(** [(imag_bound, imag_bound + imag_size)]. *)
Definition bounds_imag (d : draws) : list R :=
  [imag_bound d; imag_bound d + imag_size d].

(** [(random.random() / 2, random.random() / 2, random.random() / 2)]. *)
Definition half (rgb : R * R * R) : R * R * R :=
  let '(r, g, b) := rgb in (r / 2, g / 2, b / 2).

(** The four-point colormap of a pass. *)
Definition colormap (d : draws) : list control_point :=
  [(0, (0, 0, 0));
   (location1 d, half (random1 d));
   (location2 d, half (random2 d));
   (1, (0, 0, 0))].

(** [corrupt(pix, offset, axis)] as [generate] uses its result: as an
    array.  The [None] that [corrupt] returns for another axis would fail
    in the sum of the three buffers; [generate] passes ['y'] and ['x']. *)
Definition corrupted (pix : buffer) (offset : Z) (axis : string) : exc buffer :=
  r <- corrupt pix offset axis ;;
  match r with
  | Some b => Ok b
  | None => Raise TypeError
  end.

(** [PerlmanGreeneGenerator.generate] up to
    [pix = pix_mandel2 + pix_mandel1 + pix_julia1]: the three passes and
    their sum.  What follows in the source hands [pix] to the imaging
    library. *)
Definition pixels (d1 d2 d3 : draws) (height width : nat) : exc buffer :=
  mandel1 <- MandelbrotFractal.init (bounds_real d1) (bounds_imag d1)
               (IZR (bound_limit d1)) (iter_limit d1) (colormap d1) ;;
  pix_mandel1 <- MandelbrotFractal.generate mandel1 height width ;;
  pix_mandel1 <- corrupted pix_mandel1 (offset d1) "y" ;;
  mandel2 <- MandelbrotFractal.init (bounds_real d2) (bounds_imag d2)
               (IZR (bound_limit d2)) (iter_limit d2) (colormap d2) ;;
  pix_mandel2 <- MandelbrotFractal.generate mandel2 height width ;;
  pix_mandel2 <- corrupted pix_mandel2 (offset d2) "x" ;;
  julia1 <- JuliaFractal.init (-0.8, 0.156) (bounds_real d3) (bounds_imag d3)
              (IZR (bound_limit d3)) (iter_limit d3) (colormap d3) ;;
  pix_julia1 <- JuliaFractal.generate julia1 height width ;;
  pix_julia1 <- corrupted pix_julia1 (offset d3) "x" ;;
  Ok (add_buffer (add_buffer pix_mandel2 pix_mandel1) pix_julia1).

End PerlmanGreeneGenerator.

(** ** The vocabulary of the properties *)

(** Twice a buffer, elementwise, as int8 arithmetic computes it. *)
Definition double (src : buffer) : buffer := add_buffer src src.

(** The weight of control point [p] at [x]: its Gaussian with amplitude 1. *)
Definition weight (x width : R) (n : nat) (spread : R) (p : control_point) : R :=
  exp (- (x - location p * width) ^ 2 / (2 * (width / (spread * INR n)) ^ 2)).

(** The sum of the weights of all control points at [x]. *)
Definition total_weight (x width : R) (cmap : list control_point) (spread : R) : R :=
  sum (map (weight x width (length cmap) spread) cmap).

(** A control point whose colour values lie in [0, 1]. *)
Definition color_in_unit (p : control_point) : Prop :=
  0 <= red p <= 1 /\ 0 <= green p <= 1 /\ 0 <= blue p <= 1.

Definition in_unit (v : R) : Prop := 0 <= v <= 1.

(** The state of the pixel loops over the samples [xs] and [ys]: pixel
    [[j][i]] holds what the body computes from [(xs[i], ys[j])]. *)
Definition cell_done (color : R -> R -> exc (R * R * R)) (xs ys : list R)
  (pix : buffer) (j i : nat) : Prop :=
  exists p : pixel,
    pixel_of color (nth i xs 0) (nth j ys 0) = Ok p /\ getitem pix j i = Some p.

(** The columns before [i] are done. *)
Definition columns_done (color : R -> R -> exc (R * R * R)) (xs ys : list R)
  (i : nat) (pix : buffer) : Prop :=
  has_shape (length ys) (length xs) pix /\
  forall j i', (j < length ys)%nat -> (i' < i)%nat -> cell_done color xs ys pix j i'.

(** The columns before [i] and the rows before [j] of column [i] are done. *)
Definition rows_done (color : R -> R -> exc (R * R * R)) (xs ys : list R)
  (i j : nat) (pix : buffer) : Prop :=
  columns_done color xs ys i pix /\
  forall j', (j' < j)%nat -> cell_done color xs ys pix j' i.

(** ** Sample inputs *)

(** A 2x2 buffer whose four pixels differ. *)
Definition buffer_2x2 : buffer :=
  [[(1, 2, 3); (4, 5, 6)]; [(7, 8, 9); (10, 11, 12)]]%Z.

(** A flat map: the colour (1/2, 1/2, 1/2) at both ends. *)
Definition flat_map : list control_point :=
  [(0, (1/2, 1/2, 1/2)); (1, (1/2, 1/2, 1/2))].

(** The map of the docstring of [gradient]. *)
Definition docstring_map : list control_point :=
  [(0, (0, 0, 0)); (2/10, (0, 0, 5/10)); (1, (1, 1, 1))].

(** The defaults of [MandelbrotFractal.__init__]. *)
Definition default_colormap : list control_point :=
  [(0, (0, 0.0274509803921569, 0.392156862745098));
   (0.16, (0.12549019607843137, 0.4196078431372549, 0.796078431372549));
   (0.42, (0.9294117647058824, 1, 1));
   (0.6425, (1, 0.6666666666666666, 0));
   (0.8575, (0, 0.00784313725490196, 0));
   (1, (0, 0.00784313725490196, 0))].

Definition default_mandelbrot : MandelbrotFractal.t :=
  {| MandelbrotFractal.bounds_real := [-2; 0.5];
     MandelbrotFractal.bounds_imag := [-1; 1];
     MandelbrotFractal.bound_limit := 1000;
     MandelbrotFractal.iter_limit := 100;
     MandelbrotFractal.colormap := default_colormap |}.

(** A generator with [bound_limit = 2] and [iter_limit = 1]. *)
Definition mandelbrot_bound_2 : MandelbrotFractal.t :=
  {| MandelbrotFractal.bounds_real := [-2; 0.5];
     MandelbrotFractal.bounds_imag := [-1; 1];
     MandelbrotFractal.bound_limit := 2;
     MandelbrotFractal.iter_limit := 1;
     MandelbrotFractal.colormap := default_colormap |}.

(** A Mandelbrot generator over the docstring's map; the point [0+0i] is
    the only sample of a 1x1 image. *)
Definition mandelbrot_docstring_map : MandelbrotFractal.t :=
  {| MandelbrotFractal.bounds_real := [0; 0.5];
     MandelbrotFractal.bounds_imag := [0; 1];
     MandelbrotFractal.bound_limit := 1000;
     MandelbrotFractal.iter_limit := 100;
     MandelbrotFractal.colormap := docstring_map |}%R.

(** The control points in ascending order of location. *)
Fixpoint sorted_by_location (cmap : list control_point) : Prop :=
  match cmap with
  | [] => True
  | p :: rest =>
      (match rest with [] => True | q :: _ => location p <= location q end) /\
      sorted_by_location rest
  end.

(** A valid gradient map in the words of the docstring of [gradient]:
    locations and colour values between 0 and 1, a point at 0.0 and a
    point at 1.0, sorted by location. *)
Definition valid_gradient_map (cmap : list control_point) : Prop :=
  Forall (fun p => 0 <= location p <= 1 /\ color_in_unit p) cmap /\
  (exists rgb, In (0, rgb) cmap) /\ (exists rgb, In (1, rgb) cmap) /\
  sorted_by_location cmap.

(** The complex conjugate and the opposite of a complex number. *)
Definition conj (z : complex) : complex := (fst z, - snd z).

Definition copp (z : complex) : complex := (- fst z, - snd z).

(** A generator whose [generate] divides by an [iter_limit] of zero. *)
Definition divides_by_zero (g : FractalGenerator) : Prop :=
  match g with
  | Custom _ => False
  | Mandelbrot g => MandelbrotFractal.iter_limit g = 0%Z
  | Julia g => JuliaFractal.iter_limit g = 0%Z
  end.

(** Bounds of moderate size: no value beyond 1e150 in magnitude, where the
    magnitude of a sample is far from the largest float. *)
Definition bounds_moderate (g : FractalGenerator) : Prop :=
  Forall (fun v => Rabs v <= 1e150) (bounds_x g) /\
  Forall (fun v => Rabs v <= 1e150) (bounds_y g).

(** The default Mandelbrot generator with [iter_limit = 0]. *)
Definition mandelbrot_iter_limit_0 : MandelbrotFractal.t :=
  {| MandelbrotFractal.bounds_real := [-2; 0.5];
     MandelbrotFractal.bounds_imag := [-1; 1];
     MandelbrotFractal.bound_limit := 1000;
     MandelbrotFractal.iter_limit := 0;
     MandelbrotFractal.colormap := default_colormap |}.

(** The draws of a pass: the angle 0, a window of size 1 and two interior
    control points of colour (1/4, 1/4, 1/4). *)
Definition sample_draws (offset : Z) : PerlmanGreeneGenerator.draws :=
  {| PerlmanGreeneGenerator.radians := 0;
     PerlmanGreeneGenerator.real_size := 1;
     PerlmanGreeneGenerator.imag_size := 1;
     PerlmanGreeneGenerator.bound_limit := 500;
     PerlmanGreeneGenerator.iter_limit := 50;
     PerlmanGreeneGenerator.location1 := 0.3;
     PerlmanGreeneGenerator.random1 := (1/2, 1/2, 1/2);
     PerlmanGreeneGenerator.location2 := 0.7;
     PerlmanGreeneGenerator.random2 := (1/2, 1/2, 1/2);
     PerlmanGreeneGenerator.offset := offset |}.

(** A Julia generator with the defaults of [JuliaFractal.__init__]. *)
Definition default_julia : JuliaFractal.t :=
  {| JuliaFractal.c := (-0.8, 0.156);
     JuliaFractal.bounds_real := [-2; 0.5];
     JuliaFractal.bounds_imag := [-1; 1];
     JuliaFractal.bound_limit := 1000;
     JuliaFractal.iter_limit := 100;
     JuliaFractal.colormap := default_colormap |}.

(** A 3x1 buffer. *)
Definition buffer_3x1 : buffer :=
  [[(1, 2, 3)]; [(10, 20, 30)]; [(100, 100, 100)]]%Z.

(** * Properties *)

(** ** Lists, slices and int8 arithmetic *)

Close Scope R_scope.
Open Scope nat_scope.

Lemma nth_error_map2 {A B C : Type} (f : A -> B -> C) (l : list A) (l' : list B) (n : nat) :
  nth_error (map2 f l l') n =
  match nth_error l n, nth_error l' n with
  | Some a, Some b => Some (f a b)
  | _, _ => None
  end.
Proof.
  revert l' n; induction l as [|a l IH]; intros [|b l'] [|n]; simpl; auto.
  destruct (nth_error l n); reflexivity.
Qed.

Lemma length_map2 {A B C : Type} (f : A -> B -> C) (l : list A) (l' : list B) :
  length (map2 f l l') = Nat.min (length l) (length l').
Proof.
  revert l'; induction l as [|a l IH]; intros [|b l']; simpl; auto.
Qed.

Lemma length_zeros_like (src : buffer) : length (zeros_like src) = length src.
Proof. apply length_map. Qed.

Lemma getslice_full {A : Type} (a : list A) : getslice a None None = a.
Proof.
  unfold getslice; simpl. rewrite Nat.sub_0_r. apply firstn_all.
Qed.

Lemma slice_index_nonneg (n : nat) (i : Z) :
  (0 <= i <= Z.of_nat n)%Z -> slice_index n i = Z.to_nat i.
Proof.
  intros Hi. unfold slice_index.
  destruct (Z.ltb_spec i 0); [lia|]. f_equal; lia.
Qed.

Lemma slice_index_neg (n : nat) (i : Z) :
  (0 < i <= Z.of_nat n)%Z -> slice_index n (- i) = n - Z.to_nat i.
Proof.
  intros Hi. unfold slice_index.
  destruct (Z.ltb_spec (- i) 0); lia.
Qed.

Lemma int8_add_0_r (a : Z) : Int8.in_range a -> Int8.add a 0 = a.
Proof.
  unfold Int8.in_range, Int8.add, Int8.wrap. intros Ha.
  rewrite Z.add_0_r, Z.mod_small; lia.
Qed.

Lemma add_pixel_zero (p : pixel) : pixel_in_range p -> add_pixel p zero_pixel = p.
Proof.
  destruct p as [[r g] b]. simpl. intros (Hr & Hg & Hb).
  now rewrite !int8_add_0_r.
Qed.

Lemma add_row_zero (r : row) :
  Forall pixel_in_range r -> add_row r (map (fun _ => zero_pixel) r) = r.
Proof.
  unfold add_row. induction 1 as [|p r Hp _ IH]; simpl; [reflexivity|].
  now rewrite IH, add_pixel_zero.
Qed.

Lemma add_buffer_zeros_like (src : buffer) :
  int8_buffer src -> add_buffer src (zeros_like src) = src.
Proof.
  unfold add_buffer, zeros_like. induction 1 as [|r src Hr _ IH]; simpl; [reflexivity|].
  now rewrite IH, add_row_zero.
Qed.

(** The view [offset_pix[:]] is all of [offset_pix], so an assignment
    through it is an assignment to [offset_pix]. *)
Lemma setslice_through_full_view (a : buffer) (start stop : option Z) (val : buffer) :
  setslice_through_view a None None start stop val = setslice a start stop val.
Proof.
  unfold setslice_through_view. simpl. rewrite getslice_full.
  destruct (setslice a start stop val) as [v|e]; simpl; [|reflexivity].
  now rewrite skipn_all, app_nil_r.
Qed.

(** The two branches of [corrupt] compute the same thing. *)
Lemma corrupt_x_eq_y (src : buffer) (offset : Z) :
  corrupt src offset "x" = corrupt src offset "y".
Proof.
  unfold corrupt. simpl.
  now rewrite setslice_through_full_view, getslice_full.
Qed.

(** The overlay [offset_pix] for an offset inside the buffer: the rows from
    [offset] on, followed by as many zero rows as were cut off. *)
Lemma overlay_rows (src : buffer) (offset : Z) :
  (0 < offset < Z.of_nat (length src))%Z ->
  setslice (zeros_like src) None (Some (- offset)%Z) (getslice src (Some offset) None)
  = Ok (skipn (Z.to_nat offset) src
        ++ skipn (length src - Z.to_nat offset) (zeros_like src)).
Proof.
  intros Ho. unfold setslice, getslice, slice_bounds.
  rewrite length_zeros_like, slice_index_neg, slice_index_nonneg by lia.
  rewrite Nat.sub_0_r.
  assert (Hf : firstn (length src - Z.to_nat offset) (skipn (Z.to_nat offset) src)
               = skipn (Z.to_nat offset) src).
  { apply firstn_all2. rewrite length_skipn. lia. }
  rewrite Hf, length_skipn, Nat.eqb_refl. reflexivity.
Qed.

Lemma nth_error_overlay (src : buffer) (o j : nat) :
  0 < o < length src -> j < length src ->
  nth_error (skipn o src ++ skipn (length src - o) (zeros_like src)) j =
  if j <? length src - o then nth_error src (j + o)
  else option_map (map (fun _ => zero_pixel)) (nth_error src j).
Proof.
  intros Ho Hj. destruct (Nat.ltb_spec j (length src - o)) as [Hlt|Hge].
  - rewrite nth_error_app1 by (rewrite length_skipn; lia).
    rewrite nth_error_skipn. f_equal; lia.
  - rewrite nth_error_app2 by (rewrite length_skipn; lia).
    rewrite length_skipn, nth_error_skipn.
    replace (length src - o + (j - (length src - o))) with j by lia.
    unfold zeros_like. apply nth_error_map.
Qed.

(** What [corrupt] returns for an offset inside the buffer, row by row: the
    rows are shifted toward the origin and added, whatever the axis. *)
Lemma corrupt_y_rows (src : buffer) (offset : Z) :
  int8_buffer src ->
  (0 < offset < Z.of_nat (length src))%Z ->
  exists res, corrupt src offset "y" = Ok (Some res) /\
    forall j, j < length src ->
      nth j res [] =
        if j <? length src - Z.to_nat offset
        then add_row (nth j src []) (nth (j + Z.to_nat offset) src [])
        else nth j src [].
Proof.
  intros Hr Ho. unfold corrupt. simpl. rewrite overlay_rows by exact Ho. simpl.
  eexists; split; [reflexivity|]. intros j Hj.
  set (o := Z.to_nat offset) in *.
  assert (Hsrc : nth_error src j = Some (nth j src [])) by now apply nth_error_nth'.
  apply nth_error_nth. unfold add_buffer.
  rewrite nth_error_map2, nth_error_overlay, Hsrc by lia.
  destruct (Nat.ltb_spec j (length src - o)) as [Hlt|Hge].
  - rewrite (nth_error_nth' src []) by lia. reflexivity.
  - simpl. rewrite add_row_zero; [reflexivity|].
    unfold int8_buffer in Hr. rewrite Forall_forall in Hr.
    apply Hr. eapply nth_error_In; eassumption.
Qed.

Lemma corrupt_preserves_shape (src : buffer) (offset : Z) (height width : nat) (res : buffer) :
  has_shape height width src ->
  (0 < offset < Z.of_nat height)%Z ->
  corrupt src offset "y" = Ok (Some res) ->
  has_shape height width res.
Proof.
  intros [Hlen Hrows] Ho. subst height. unfold corrupt. simpl.
  rewrite overlay_rows by exact Ho. simpl. intros [= <-].
  rewrite Forall_forall in Hrows. split.
  - unfold add_buffer. rewrite length_map2, length_app, !length_skipn, length_zeros_like. lia.
  - apply Forall_forall. intros r Hin.
    apply In_nth_error in Hin. destruct Hin as [j Hj].
    assert (Hlt : j < length src).
    { assert (Hn : nth_error (add_buffer src
                      (skipn (Z.to_nat offset) src
                       ++ skipn (length src - Z.to_nat offset) (zeros_like src))) j <> None)
        by congruence.
      apply nth_error_Some in Hn. unfold add_buffer in Hn.
      rewrite length_map2 in Hn. lia. }
    unfold add_buffer in Hj. rewrite nth_error_map2, nth_error_overlay in Hj by lia.
    destruct (nth_error src j) as [a|] eqn:Ha; [|discriminate].
    assert (Hla : length a = width) by (apply Hrows; eapply nth_error_In; eassumption).
    destruct (j <? length src - Z.to_nat offset).
    + destruct (nth_error src (j + Z.to_nat offset)) as [b|] eqn:Hb; [|discriminate].
      injection Hj as <-. unfold add_row. rewrite length_map2.
      assert (Hlb : length b = width) by (apply Hrows; eapply nth_error_In; eassumption).
      lia.
    + simpl in Hj. injection Hj as <-. unfold add_row.
      rewrite length_map2, length_map. lia.
Qed.

(** The row axis: for an offset inside an int8 buffer of shape (height,
    width, 3), [corrupt(src, offset, 'y')] returns a buffer of the same
    shape whose row [j] is [src[j] + src[j + offset]] for
    [j < height - offset] and [src[j]] below that; no row wraps around. *)
Lemma corrupt_y_shift_add (src : buffer) (offset : Z) (height width : nat) :
  has_shape height width src -> int8_buffer src ->
  (0 < offset < Z.of_nat height)%Z ->
  exists res, corrupt src offset "y" = Ok (Some res) /\
    has_shape height width res /\
    forall j, j < height ->
      nth j res [] =
        if j <? height - Z.to_nat offset
        then add_row (nth j src []) (nth (j + Z.to_nat offset) src [])
        else nth j src [].
Proof.
  intros Hshape Hr Ho. pose proof Hshape as [Hlen _]. subst height.
  destruct (corrupt_y_rows Hr Ho) as (res & Hrun & Hrows).
  exists res. split; [exact Hrun|]. split; [|exact Hrows].
  eapply corrupt_preserves_shape; eassumption.
Qed.

(** ** corrupt *)

Open Scope Z_scope.

(** C1: [corrupt(buffer, offset, 'x')] is to add, in every row, the pixel
    [offset] columns further on.  On the 2x2 buffer with [offset = 1] the
    code instead adds the next row to the first one, exactly as for ['y']:
    its result is not the column shift the claim describes. *)
Theorem corrupt_x_shifts_rows :
  corrupt buffer_2x2 1 "x"
    = Ok (Some [[(8, 10, 12); (14, 16, 18)]; [(7, 8, 9); (10, 11, 12)]]) /\
  spec_corrupt_x buffer_2x2 1
    = [[(5, 7, 9); (4, 5, 6)]; [(17, 19, 21); (10, 11, 12)]] /\
  corrupt buffer_2x2 1 "x" <> Ok (Some (spec_corrupt_x buffer_2x2 1)).
Proof.
  split; [reflexivity|]. split; [reflexivity|]. discriminate.
Qed.

(** C3, as stated, fails: with [offset = 0] a one-row buffer comes back
    unchanged, not doubled, and a two-row buffer makes the slice
    assignment raise. *)
Lemma corrupt_offset_zero_not_double :
  corrupt [[(1, 2, 3)]] 0 "y" = Ok (Some [[(1, 2, 3)]]) /\
  double [[(1, 2, 3)]] = [[(2, 4, 6)]] /\
  corrupt [[(1, 2, 3)]] 0 "y" <> Ok (Some (double [[(1, 2, 3)]])) /\
  corrupt buffer_2x2 0 "y" = Raise ValueError /\
  corrupt buffer_2x2 0 "x" = Raise ValueError.
Proof. repeat split; try reflexivity. discriminate. Qed.

(** C3, amended: [-0] is [0], so the target slice [offset_pix[:-0]] is
    empty.  For either axis, [corrupt(buffer, 0, axis)] returns a buffer of
    at most one row unchanged (the overlay stays zero), and raises
    [ValueError] on a buffer of two rows or more. *)
Theorem corrupt_offset_zero (src : buffer) (axis : string) :
  int8_buffer src ->
  axis = "x"%string \/ axis = "y"%string ->
  corrupt src 0 axis =
    if (length src <=? 1)%nat then Ok (Some src) else Raise ValueError.
Proof.
  intros Hr Hax.
  assert (Hy : corrupt src 0 "y" =
               if (length src <=? 1)%nat then Ok (Some src) else Raise ValueError).
  { destruct src as [|r [|r' src]]; try reflexivity.
    unfold corrupt. simpl.
    change [map (fun _ : pixel => zero_pixel) r] with (zeros_like [r]).
    now rewrite add_buffer_zeros_like. }
  destruct Hax as [-> | ->]; [rewrite corrupt_x_eq_y|]; exact Hy.
Qed.

Lemma corrupt_offset_zero_witness :
  corrupt [[(1, 2, 3)]] 0 "y" = Ok (Some [[(1, 2, 3)]]).
Proof.
  apply (@corrupt_offset_zero [[(1, 2, 3)]] "y").
  - repeat constructor; unfold Int8.in_range; lia.
  - right; reflexivity.
Defined.

(** C7: for an offset inside the buffer, [corrupt(src, offset, 'x')] and
    [corrupt(src, offset, 'y')] both return, and return the same buffer. *)
Theorem corrupt_x_same_as_y (src : buffer) (offset : Z) :
  0 < offset < Z.of_nat (length src) ->
  exists res : buffer,
    corrupt src offset "x" = Ok (Some res) /\
    corrupt src offset "y" = Ok (Some res).
Proof.
  intros Ho. rewrite corrupt_x_eq_y. unfold corrupt. simpl.
  rewrite overlay_rows by exact Ho. simpl. eexists; split; reflexivity.
Qed.

Lemma corrupt_x_same_as_y_witness :
  exists res : buffer,
    corrupt buffer_2x2 1 "x" = Ok (Some res) /\
    corrupt buffer_2x2 1 "y" = Ok (Some res).
Proof.
  apply (@corrupt_x_same_as_y buffer_2x2 1). simpl. lia.
Defined.

(** ** gradient *)

Close Scope Z_scope.
Open Scope R_scope.

Lemma true_div_ok (a b : R) : b <> 0 -> true_div a b = Ok (a / b).
Proof.
  intros Hb. unfold true_div. destruct (Req_dec_T b 0); [contradiction|reflexivity].
Qed.

Lemma true_div_zero (a : R) : true_div a 0 = Raise ZeroDivisionError.
Proof.
  unfold true_div. destruct (Req_dec_T 0 0); [reflexivity|contradiction].
Qed.

Lemma comprehension_ok {A B : Type} (f : A -> exc B) (g : A -> B) (l : list A) :
  (forall a, In a l -> f a = Ok (g a)) -> comprehension f l = Ok (map g l).
Proof.
  induction l as [|a l IH]; intros Hf; simpl; [reflexivity|].
  rewrite Hf by (left; reflexivity). simpl.
  rewrite IH by (intros; apply Hf; right; assumption). reflexivity.
Qed.

Lemma fold_left_Rplus_acc (l : list R) (a : R) :
  fold_left Rplus l a = a + fold_left Rplus l 0.
Proof.
  revert a; induction l as [|v l IH]; intros a; simpl; [lra|].
  rewrite (IH (a + v)), (IH (0 + v)). lra.
Qed.

Lemma sum_cons (v : R) (l : list R) : sum (v :: l) = v + sum l.
Proof.
  unfold sum. simpl. rewrite fold_left_Rplus_acc. lra.
Qed.

Lemma sum_nonneg (l : list R) : Forall (fun v => 0 <= v) l -> 0 <= sum l.
Proof.
  induction 1 as [|v l Hv _ IH]; [unfold sum; simpl; lra|].
  rewrite sum_cons. lra.
Qed.

Lemma sum_map_scale {A : Type} (r : R) (f : A -> R) (l : list A) :
  sum (map (fun p => r * f p + 0) l) = r * sum (map f l).
Proof.
  induction l as [|a l IH]; simpl; [unfold sum; simpl; lra|].
  rewrite !sum_cons, IH. lra.
Qed.

Lemma sigma_nonzero (width spread : R) (n : nat) :
  width <> 0 -> spread <> 0 -> (0 < n)%nat ->
  spread * INR n <> 0 /\ 2 * (width / (spread * INR n)) ^ 2 <> 0.
Proof.
  intros Hw Hs Hn.
  assert (HI : INR n <> 0) by (apply not_0_INR; lia).
  assert (Hd : spread * INR n <> 0) by (apply Rmult_integral_contrapositive_currified; assumption).
  split; [exact Hd|].
  assert (Hc : width / (spread * INR n) <> 0).
  { unfold Rdiv. apply Rmult_integral_contrapositive_currified; [assumption|].
    apply Rinv_neq_0_compat; assumption. }
  apply Rmult_integral_contrapositive_currified; [lra|].
  simpl. rewrite Rmult_1_r.
  apply Rmult_integral_contrapositive_currified; assumption.
Qed.

(** With a non-zero width and spread and a non-empty map no division
    fails, and a channel is the weighted sum of its colour values. *)
Lemma channel_sum_ok (channel : control_point -> R) (x width : R)
  (cmap : list control_point) (spread : R) :
  width <> 0 -> spread <> 0 -> (0 < length cmap)%nat ->
  channel_sum channel x width cmap spread =
  Ok (sum (map (fun p => channel p * weight x width (length cmap) spread p + 0) cmap)).
Proof.
  intros Hw Hs Hn. unfold channel_sum.
  destruct (sigma_nonzero Hw Hs Hn) as [Hd Hc].
  rewrite comprehension_ok
    with (g := fun p => channel p * weight x width (length cmap) spread p + 0).
  - reflexivity.
  - intros p _. rewrite true_div_ok by exact Hd. simpl.
    unfold gaussian. rewrite true_div_ok by exact Hc. reflexivity.
Qed.

Lemma weight_pos (x width : R) (n : nat) (spread : R) (p : control_point) :
  0 < weight x width n spread p.
Proof. apply exp_pos. Qed.

Lemma channel_nonneg (channel : control_point -> R) (x width : R) (n : nat)
  (spread : R) (cmap : list control_point) :
  Forall (fun p => 0 <= channel p) cmap ->
  0 <= sum (map (fun p => channel p * weight x width n spread p + 0) cmap).
Proof.
  intros Hc. apply sum_nonneg. apply Forall_map.
  eapply Forall_impl; [|exact Hc]. simpl. intros p Hp.
  pose proof (weight_pos x width n spread p). nra.
Qed.

(** A gradient map whose control points all carry the colour [(r, g, b)]:
    every channel is that colour value times the total weight at [x],
    clamped at 1. *)
Lemma gradient_constant_color (x width : R) (cmap : list control_point) (spread : R)
  (r g b : R) :
  width <> 0 -> spread <> 0 -> (0 < length cmap)%nat ->
  Forall (fun p : control_point => snd p = (r, g, b)) cmap ->
  gradient x width cmap spread =
  Ok (Rmin 1 (r * total_weight x width cmap spread),
      Rmin 1 (g * total_weight x width cmap spread),
      Rmin 1 (b * total_weight x width cmap spread)).
Proof.
  intros Hw Hs Hn Hflat. unfold gradient.
  rewrite !channel_sum_ok by assumption. simpl.
  assert (Hch : forall (channel : control_point -> R) (v : R),
             (forall p, snd p = (r, g, b) -> channel p = v) ->
             sum (map (fun p => channel p * weight x width (length cmap) spread p + 0) cmap)
             = v * total_weight x width cmap spread).
  { intros channel v Hv. unfold total_weight. rewrite <- sum_map_scale.
    f_equal. apply map_ext_in. intros p Hp.
    rewrite Forall_forall in Hflat. rewrite (Hv p (Hflat p Hp)). reflexivity. }
  rewrite (Hch red r), (Hch green g), (Hch blue b); [reflexivity| | |];
    intros p Hp; unfold red, green, blue; rewrite Hp; reflexivity.
Qed.

Lemma exp_neg_bound (y : R) : 0 <= y -> exp (- y) <= / (1 + y).
Proof.
  intros Hy. rewrite exp_Ropp.
  apply Rinv_le_contravar; [lra|]. apply exp_ineq1_le.
Qed.

Lemma total_weight_flat_map (x : R) :
  total_weight x 1 flat_map 1 = exp (- (2 * x ^ 2)) + exp (- (2 * (x - 1) ^ 2)).
Proof.
  unfold total_weight, flat_map, weight, location, sum. simpl.
  rewrite Rplus_0_l. f_equal; f_equal; field.
Qed.

(** C6, as stated, fails: on the flat map with colour 1/2 the claim
    promises about [min(1, 1/2) = 1/2] in every channel at every [x], but
    the code returns more than 1/2 at [x = 0] and less than 1/100 at
    [x = 10]. *)
Lemma gradient_flat_map_depends_on_x :
  exists u v : R,
    gradient 0 1 flat_map 1 = Ok (u, u, u) /\
    gradient 10 1 flat_map 1 = Ok (v, v, v) /\
    Rmin 1 (1/2) = 1/2 /\ 1/2 < u /\ v < 1/100.
Proof.
  assert (Hflat : Forall (fun p : control_point => snd p = (1/2, 1/2, 1/2)) flat_map)
    by (repeat constructor).
  exists (Rmin 1 (1/2 * total_weight 0 1 flat_map 1)),
         (Rmin 1 (1/2 * total_weight 10 1 flat_map 1)).
  split; [|split; [|split; [|split]]].
  - apply gradient_constant_color; try lra; [simpl; lia | exact Hflat].
  - apply gradient_constant_color; try lra; [simpl; lia | exact Hflat].
  - apply Rmin_right. lra.
  - rewrite total_weight_flat_map.
    replace (- (2 * 0 ^ 2)) with 0 by ring. rewrite exp_0.
    pose proof (exp_pos (- (2 * (0 - 1) ^ 2))).
    apply Rmin_glb_lt; lra.
  - rewrite total_weight_flat_map.
    eapply Rle_lt_trans; [apply Rmin_r|].
    pose proof (@exp_neg_bound (2 * 10 ^ 2) ltac:(lra)) as H1.
    pose proof (@exp_neg_bound (2 * (10 - 1) ^ 2) ltac:(lra)) as H2.
    replace (/ (1 + 2 * 10 ^ 2)) with (/ 201) in H1 by (f_equal; ring).
    replace (/ (1 + 2 * (10 - 1) ^ 2)) with (/ 163) in H2 by (f_equal; ring).
    lra.
Qed.

(** C6, amended: for a width above 0, a non-zero spread and a map of at
    least two control points that all carry the colour [(r, g, b)],
    [gradient] returns each colour value multiplied by the total Gaussian
    weight at [x] and clamped at 1.  The total weight varies with [x]. *)
Theorem gradient_flat_map (x width : R) (cmap : list control_point) (spread : R)
  (r g b : R) :
  0 < width -> spread <> 0 -> (2 <= length cmap)%nat ->
  Forall (fun p : control_point => snd p = (r, g, b)) cmap ->
  gradient x width cmap spread =
  Ok (Rmin 1 (r * total_weight x width cmap spread),
      Rmin 1 (g * total_weight x width cmap spread),
      Rmin 1 (b * total_weight x width cmap spread)).
Proof.
  intros Hw Hs Hn Hflat.
  apply gradient_constant_color; [lra | exact Hs | lia | exact Hflat].
Qed.

Lemma gradient_flat_map_witness :
  gradient 10 1 flat_map 1 =
  Ok (Rmin 1 (1/2 * total_weight 10 1 flat_map 1),
      Rmin 1 (1/2 * total_weight 10 1 flat_map 1),
      Rmin 1 (1/2 * total_weight 10 1 flat_map 1)).
Proof.
  apply (@gradient_flat_map 10 1 flat_map 1 (1/2) (1/2) (1/2)).
  - lra.
  - lra.
  - simpl. lia.
  - repeat constructor.
Defined.

Lemma Rmin_1_in_unit (v : R) : 0 <= v -> in_unit (Rmin 1 v).
Proof.
  intros Hv. unfold in_unit. split.
  - apply Rmin_glb; lra.
  - apply Rmin_l.
Qed.

(** The channels [gradient] returns for colours in [0, 1]. *)
Lemma gradient_in_unit (x width : R) (cmap : list control_point) (spread : R) :
  width <> 0 -> spread <> 0 -> (0 < length cmap)%nat ->
  Forall color_in_unit cmap ->
  exists r g b : R,
    gradient x width cmap spread = Ok (r, g, b) /\
    in_unit r /\ in_unit g /\ in_unit b.
Proof.
  intros Hw Hs Hn Hc. unfold gradient.
  rewrite !channel_sum_ok by assumption. simpl.
  do 3 eexists. split; [reflexivity|].
  repeat split; apply Rmin_1_in_unit; apply channel_nonneg;
    (eapply Forall_impl; [|exact Hc]); intros p (Hr & Hg & Hb); lra.
Qed.

(** C8: for a width and a spread above 0 and a map of at least two control
    points with colours in [0, 1], [gradient] returns, and each channel it
    returns lies in [0, 1]. *)
Theorem gradient_channels_in_unit (x width : R) (cmap : list control_point) (spread : R) :
  0 < width -> 0 < spread -> (2 <= length cmap)%nat ->
  Forall color_in_unit cmap ->
  exists r g b : R,
    gradient x width cmap spread = Ok (r, g, b) /\
    0 <= r <= 1 /\ 0 <= g <= 1 /\ 0 <= b <= 1.
Proof.
  intros Hw Hs Hn Hc.
  apply gradient_in_unit; [lra | lra | lia | exact Hc].
Qed.

Lemma gradient_channels_in_unit_witness :
  exists r g b : R,
    gradient 50 100 docstring_map 1 = Ok (r, g, b) /\
    0 <= r <= 1 /\ 0 <= g <= 1 /\ 0 <= b <= 1.
Proof.
  apply (@gradient_channels_in_unit 50 100 docstring_map 1).
  - lra.
  - lra.
  - simpl. lia.
  - repeat constructor; unfold red, green, blue; simpl; lra.
Defined.

(** ** The escape-time loop *)

Lemma orbit_succ (c z : complex) (k : nat) : orbit c z (S k) = step c (orbit c z k).
Proof.
  revert z; induction k as [|k IH]; intros z; [reflexivity|].
  change (orbit c z (S (S k))) with (orbit c (step c z) (S k)).
  rewrite IH. reflexivity.
Qed.

(** The loop never needs more fuel than the iterations left to the limit. *)
Lemma escape_loop_fuel (fuel fuel' : nat) (bound_limit : R) (iter_limit : Z)
  (c z : complex) (n : Z) :
  (iter_limit - n <= Z.of_nat fuel)%Z -> (iter_limit - n <= Z.of_nat fuel')%Z ->
  escape_loop fuel bound_limit iter_limit c z n
  = escape_loop fuel' bound_limit iter_limit c z n.
Proof.
  revert fuel' z n; induction fuel as [|fuel IH]; intros [|fuel'] z n Hf Hf'; simpl.
  - reflexivity.
  - destruct (Rlt_dec (cabs z) bound_limit); [|reflexivity].
    destruct (Z.ltb_spec n iter_limit); [lia|reflexivity].
  - destruct (Rlt_dec (cabs z) bound_limit); [|reflexivity].
    destruct (Z.ltb_spec n iter_limit); [lia|reflexivity].
  - destruct (Rlt_dec (cabs z) bound_limit); [|reflexivity].
    destruct (Z.ltb_spec n iter_limit); [|reflexivity].
    apply IH; lia.
Qed.

(** An orbit that stays below the bound is counted to the end. *)
Lemma escape_loop_bounded (fuel : nat) (bound_limit : R) (iter_limit : Z)
  (c z : complex) (n : Z) :
  (forall k, (k < fuel)%nat -> cabs (orbit c z k) < bound_limit) ->
  (n + Z.of_nat fuel <= iter_limit)%Z ->
  escape_loop fuel bound_limit iter_limit c z n = (n + Z.of_nat fuel)%Z.
Proof.
  revert z n; induction fuel as [|fuel IH]; intros z n Hb Hn; simpl escape_loop.
  - lia.
  - destruct (Rlt_dec (cabs z) bound_limit) as [_|Hz].
    + destruct (Z.ltb_spec n iter_limit); [|lia].
      rewrite IH; [lia| |lia].
      intros k Hk. apply (Hb (S k)). lia.
    + exfalso. apply Hz. apply (Hb 0%nat). lia.
Qed.

(** A start at or beyond the bound is not iterated at all. *)
Lemma escape_loop_outside (fuel : nat) (bound_limit : R) (iter_limit : Z)
  (c z : complex) (n : Z) :
  bound_limit <= cabs z ->
  escape_loop fuel bound_limit iter_limit c z n = n.
Proof.
  intros Hz. destruct fuel as [|fuel]; simpl; [reflexivity|].
  destruct (Rlt_dec (cabs z) bound_limit); [lra|reflexivity].
Qed.

Lemma color_input_full (iter_limit : Z) :
  (iter_limit <> 0)%Z -> color_input iter_limit iter_limit = Ok 1.
Proof.
  intros Hi. unfold color_input.
  assert (IZR iter_limit <> 0) by (apply not_0_IZR; exact Hi).
  rewrite true_div_ok by assumption. f_equal. now field.
Qed.

Lemma color_input_none (iter_limit : Z) :
  (iter_limit <> 0)%Z -> color_input 0 iter_limit = Ok 0.
Proof.
  intros Hi. unfold color_input.
  assert (IZR iter_limit <> 0) by (apply not_0_IZR; exact Hi).
  rewrite true_div_ok by assumption. f_equal. now field.
Qed.

Lemma orbit_origin (k : nat) : orbit (0, 0) (0, 0) k = (0, 0).
Proof.
  induction k as [|k IH]; [reflexivity|].
  rewrite orbit_succ, IH. unfold step, cadd, cmul. simpl. f_equal; ring.
Qed.

Lemma cabs_origin : cabs (0, 0) = 0.
Proof.
  unfold cabs. simpl. replace (0 * 0 + 0 * 0) with 0 by ring. apply sqrt_0.
Qed.

Lemma cabs_10_10 : 2 <= cabs (10, 10).
Proof.
  unfold cabs. simpl. rewrite <- (sqrt_square 2) at 1 by lra.
  apply sqrt_le_1; lra.
Qed.

(** An orbit below the bound at every test of the loop. *)
Lemma mandelbrot_bounded (self : MandelbrotFractal.t) (c : complex) :
  (0 < MandelbrotFractal.iter_limit self)%Z ->
  (forall k : nat, (Z.of_nat k < MandelbrotFractal.iter_limit self)%Z ->
     cabs (orbit c c k) < MandelbrotFractal.bound_limit self) ->
  MandelbrotFractal.num_iterations self c = MandelbrotFractal.iter_limit self /\
  MandelbrotFractal.scalar self c = Ok 1.
Proof.
  intros Hi Hb.
  assert (Hn : MandelbrotFractal.num_iterations self c = MandelbrotFractal.iter_limit self).
  { unfold MandelbrotFractal.num_iterations, escape_iterations.
    rewrite escape_loop_bounded; [lia| |lia].
    intros k Hk. apply Hb. lia. }
  split; [exact Hn|].
  unfold MandelbrotFractal.scalar. rewrite Hn. apply color_input_full. lia.
Qed.

(** C4: when [iter_limit > 0] and the orbit of [c] stays below
    [bound_limit] at each of the [iter_limit] tests of the loop, the loop
    counts [iter_limit] iterations and [gradient] receives exactly 1. *)
Theorem mandelbrot_interior_point (self : MandelbrotFractal.t) (c : complex) :
  (0 < MandelbrotFractal.iter_limit self)%Z ->
  (forall k : nat, (Z.of_nat k < MandelbrotFractal.iter_limit self)%Z ->
     cabs (orbit c c k) < MandelbrotFractal.bound_limit self) ->
  MandelbrotFractal.num_iterations self c = MandelbrotFractal.iter_limit self /\
  MandelbrotFractal.scalar self c = Ok 1.
Proof. exact (@mandelbrot_bounded self c). Qed.

Lemma mandelbrot_interior_point_witness :
  MandelbrotFractal.num_iterations default_mandelbrot (0, 0) = 100%Z /\
  MandelbrotFractal.scalar default_mandelbrot (0, 0) = Ok 1.
Proof.
  apply (@mandelbrot_interior_point default_mandelbrot (0, 0)).
  - simpl. lia.
  - intros k _. rewrite orbit_origin, cabs_origin. simpl. lra.
Defined.

Lemma mandelbrot_outside (self : MandelbrotFractal.t) (c : complex) :
  MandelbrotFractal.bound_limit self <= cabs c ->
  (MandelbrotFractal.iter_limit self <> 0)%Z ->
  MandelbrotFractal.num_iterations self c = 0%Z /\
  MandelbrotFractal.scalar self c = Ok 0.
Proof.
  intros Hc Hi.
  assert (Hn : MandelbrotFractal.num_iterations self c = 0%Z).
  { unfold MandelbrotFractal.num_iterations, escape_iterations.
    now apply escape_loop_outside. }
  split; [exact Hn|].
  unfold MandelbrotFractal.scalar. rewrite Hn. now apply color_input_none.
Qed.

(** C5, as stated, fails: with [bound_limit = 2] and [iter_limit = 1] the
    point [10+10i] is counted 0 times and [gradient] receives 0, the other
    end of the gradient from the [1/iter_limit = 1] of the claim. *)
Lemma mandelbrot_escaping_point_not_one :
  MandelbrotFractal.num_iterations mandelbrot_bound_2 (10, 10) = 0%Z /\
  MandelbrotFractal.scalar mandelbrot_bound_2 (10, 10) = Ok 0 /\
  1 / IZR (MandelbrotFractal.iter_limit mandelbrot_bound_2) = 1.
Proof.
  destruct (@mandelbrot_outside mandelbrot_bound_2 (10, 10)) as [Hn Hs].
  - simpl. apply cabs_10_10.
  - simpl. lia.
  - repeat split; [exact Hn | exact Hs | simpl; field].
Qed.

(** C5, amended: with [bound_limit = 2] and [iter_limit > 0] every
    coordinate [c] whose magnitude is at least [bound_limit], such as
    [10+10i], fails the first test of the loop: the iteration count is
    exactly 0 and [gradient] receives exactly 0. *)
Theorem mandelbrot_escaping_point (self : MandelbrotFractal.t) (c : complex) :
  MandelbrotFractal.bound_limit self = 2 ->
  (0 < MandelbrotFractal.iter_limit self)%Z ->
  MandelbrotFractal.bound_limit self <= cabs c ->
  MandelbrotFractal.num_iterations self c = 0%Z /\
  MandelbrotFractal.scalar self c = Ok 0.
Proof.
  intros Hb Hi Hc. apply mandelbrot_outside; [exact Hc|lia].
Qed.

Lemma mandelbrot_escaping_point_witness :
  MandelbrotFractal.num_iterations mandelbrot_bound_2 (10, 10) = 0%Z /\
  MandelbrotFractal.scalar mandelbrot_bound_2 (10, 10) = Ok 0.
Proof.
  apply (@mandelbrot_escaping_point mandelbrot_bound_2 (10, 10)).
  - reflexivity.
  - simpl. lia.
  - simpl. apply cabs_10_10.
Defined.

(** ** The pixel loops of generate *)

Close Scope R_scope.
Open Scope nat_scope.

Lemma length_list_set {A : Type} (n : nat) (v : A) (l : list A) :
  length (list_set n v l) = length l.
Proof.
  revert n; induction l as [|a l IH]; intros [|n]; simpl; auto.
Qed.

Lemma nth_error_list_set_eq {A : Type} (n : nat) (v : A) (l : list A) :
  n < length l -> nth_error (list_set n v l) n = Some v.
Proof.
  revert n; induction l as [|a l IH]; intros [|n] Hn; simpl in *; try lia.
  - reflexivity.
  - apply IH. lia.
Qed.

Lemma nth_error_list_set_neq {A : Type} (n k : nat) (v : A) (l : list A) :
  k <> n -> nth_error (list_set n v l) k = nth_error l k.
Proof.
  revert n k; induction l as [|a l IH]; intros [|n] [|k] Hk; simpl; auto.
  - contradiction.
Qed.

Lemma has_shape_zeros (height width : nat) : has_shape height width (zeros height width).
Proof.
  unfold has_shape, zeros. split; [apply repeat_length|].
  apply Forall_forall. intros r Hr. apply repeat_spec in Hr. subst r.
  apply repeat_length.
Qed.

(** An assignment inside the array succeeds, keeps the shape, and changes
    the one pixel it names. *)
Lemma setitem_spec (pix : buffer) (j i : nat) (p : pixel) (height width : nat) :
  has_shape height width pix -> j < height -> i < width ->
  exists pix' : buffer,
    setitem pix j i p = Ok pix' /\ has_shape height width pix' /\
    getitem pix' j i = Some p /\
    (forall j' i', j' <> j \/ i' <> i -> getitem pix' j' i' = getitem pix j' i').
Proof.
  intros [Hlen Hrows] Hj Hi. unfold setitem.
  destruct (nth_error pix j) as [r|] eqn:Hr.
  2:{ apply nth_error_None in Hr. lia. }
  assert (Hlr : length r = width).
  { rewrite Forall_forall in Hrows. apply Hrows. eapply nth_error_In; eassumption. }
  rewrite Hlr. destruct (Nat.ltb_spec i width); [|lia].
  eexists; split; [reflexivity|]. split; [|split].
  - split; [now rewrite length_list_set|].
    apply Forall_forall. intros r' Hin. apply In_nth_error in Hin.
    destruct Hin as [k Hk]. destruct (Nat.eq_dec k j) as [->|Hne].
    + rewrite nth_error_list_set_eq in Hk by lia. injection Hk as <-.
      now rewrite length_list_set.
    + rewrite nth_error_list_set_neq in Hk by exact Hne.
      rewrite Forall_forall in Hrows. apply Hrows. eapply nth_error_In; eassumption.
  - unfold getitem. rewrite nth_error_list_set_eq by lia.
    apply nth_error_list_set_eq. lia.
  - intros j' i' Hne. unfold getitem.
    destruct (Nat.eq_dec j' j) as [->|Hj'].
    + rewrite nth_error_list_set_eq by lia. rewrite Hr.
      apply nth_error_list_set_neq. destruct Hne; [contradiction|assumption].
    + now rewrite nth_error_list_set_neq by exact Hj'.
Qed.

(** The loop rule: an invariant that every round of the body keeps holds
    when the loop has run through its list, and the loop returns. *)
Lemma for_enumerate_from_inv {A S : Type} (Inv : nat -> S -> Prop) (xs : list A)
  (body : nat -> A -> S -> exc S) (i : nat) (s : S) :
  Inv i s ->
  (forall k x s0, nth_error xs k = Some x -> Inv (i + k) s0 ->
     exists s1, body (i + k) x s0 = Ok s1 /\ Inv (Datatypes.S (i + k)) s1) ->
  exists s', for_enumerate_from i xs body s = Ok s' /\ Inv (i + length xs) s'.
Proof.
  revert i s; induction xs as [|x xs IH]; intros i s Hinv Hbody; simpl.
  - exists s. rewrite Nat.add_0_r. split; [reflexivity|exact Hinv].
  - destruct (Hbody 0 x s) as (s1 & Hs1 & Hinv1); [reflexivity|now rewrite Nat.add_0_r|].
    rewrite Nat.add_0_r in Hs1, Hinv1. rewrite Hs1. simpl.
    destruct (IH (Datatypes.S i) s1 Hinv1) as (s' & Hs' & Hinv').
    + intros k y s0 Hk Hs0.
      replace (Datatypes.S i + k) with (i + Datatypes.S k) in * by lia.
      apply Hbody; assumption.
    + exists s'. split; [exact Hs'|].
      now replace (i + Datatypes.S (length xs)) with (Datatypes.S i + length xs) by lia.
Qed.

Section Render.

Variable color : R -> R -> exc (R * R * R).
Variables xs ys : list R.

Hypothesis color_ok : forall x y, exists rgb, color x y = Ok rgb.

Lemma inner_loop (i : nat) (x : R) (pix : buffer) :
  nth_error xs i = Some x -> columns_done color xs ys i pix ->
  exists pix',
    for_enumerate ys (fun j y pix =>
      rgb <- color x y ;; setitem pix j i (store_pixel rgb)) pix = Ok pix' /\
    columns_done color xs ys (Datatypes.S i) pix'.
Proof.
  intros Hx Hcols.
  assert (Hi : i < length xs) by (apply nth_error_Some; congruence).
  destruct (@for_enumerate_from_inv R buffer (rows_done color xs ys i) ys
              (fun j y pix => rgb <- color x y ;; setitem pix j i (store_pixel rgb))
              0 pix) as (pix' & Hrun & [[Hshape Hdone] Hcol]).
  - split; [exact Hcols|]. intros j' Hj'. lia.
  - intros j y pix0 Hy [[Hshape Hdone] Hcol]. simpl in *.
    assert (Hj : j < length ys) by (apply nth_error_Some; congruence).
    destruct (color_ok x y) as [rgb Hrgb]. rewrite Hrgb. simpl.
    destruct (@setitem_spec pix0 j i (store_pixel rgb) _ _ Hshape Hj Hi)
      as (pix1 & Hset & Hshape1 & Hget & Hframe).
    exists pix1. split; [exact Hset|]. split; [split; [exact Hshape1|]|].
    + intros j' i' Hj' Hi'. destruct (Hdone j' i' Hj' Hi') as (p & Hp & Hg).
      exists p. split; [exact Hp|]. rewrite Hframe by lia. exact Hg.
    + intros j' Hj'. destruct (Nat.eq_dec j' j) as [->|Hne].
      * exists (store_pixel rgb). split; [|exact Hget].
        unfold pixel_of. rewrite (nth_error_nth _ _ _ Hx), (nth_error_nth _ _ _ Hy), Hrgb.
        reflexivity.
      * destruct (Hcol j' ltac:(lia)) as (p & Hp & Hg).
        exists p. split; [exact Hp|]. rewrite Hframe by lia. exact Hg.
  - exists pix'. split; [exact Hrun|]. split; [exact Hshape|].
    intros j i' Hj Hi'. simpl in Hcol.
    destruct (Nat.eq_dec i' i) as [->|Hne]; [apply Hcol; exact Hj|].
    apply Hdone; [exact Hj|lia].
Qed.

Lemma outer_loop :
  exists pix,
    for_enumerate xs (fun i x pix =>
      for_enumerate ys (fun j y pix =>
        rgb <- color x y ;; setitem pix j i (store_pixel rgb)) pix)
      (zeros (length ys) (length xs)) = Ok pix /\
    columns_done color xs ys (length xs) pix.
Proof.
  apply (@for_enumerate_from_inv R buffer (columns_done color xs ys) xs _ 0).
  - split; [apply has_shape_zeros|]. intros j i' _ Hi'. lia.
  - intros i x pix Hx Hcols. simpl in *. now apply inner_loop.
Qed.

End Render.

(** ** linspace *)

Lemma length_linspace (start stop : R) (num : nat) :
  length (linspace start stop num) = num.
Proof.
  destruct num as [|[|div]]; try reflexivity.
  unfold linspace. rewrite length_app, length_map, length_seq. simpl. lia.
Qed.

(** The samples are evenly spaced from [start] to [stop]. *)
Lemma nth_linspace (start stop : R) (num k : nat) :
  1 < num -> k < num ->
  nth k (linspace start stop num) 0%R
  = (start + INR k * (stop - start) / INR (num - 1))%R.
Proof.
  intros Hn Hk. destruct num as [|[|div]]; try lia.
  assert (Hd : INR (S div) <> 0%R) by (apply not_0_INR; lia).
  replace (S (S div) - 1) with (S div) by lia.
  unfold linspace.
  set (f := fun k0 : nat => (INR k0 * ((stop - start) / INR (S div)) + start)%R).
  destruct (Nat.eq_dec k (S div)) as [->|Hne].
  - rewrite app_nth2 by (rewrite length_map, length_seq; lia).
    rewrite length_map, length_seq, Nat.sub_diag. simpl nth. now field.
  - rewrite app_nth1 by (rewrite length_map, length_seq; lia).
    rewrite nth_indep with (d' := f 0) by (rewrite length_map, length_seq; lia).
    rewrite map_nth, seq_nth by lia. unfold f. simpl Nat.add. now field.
Qed.

Lemma linspace_first (start stop : R) (num : nat) :
  1 < num -> nth 0 (linspace start stop num) 0%R = start.
Proof.
  intros Hn. rewrite nth_linspace by lia. simpl INR.
  assert (INR (num - 1) <> 0%R) by (apply not_0_INR; lia). now field.
Qed.

Lemma linspace_last (start stop : R) (num : nat) :
  1 < num -> nth (num - 1) (linspace start stop num) 0%R = stop.
Proof.
  intros Hn. rewrite nth_linspace by lia.
  assert (INR (num - 1) <> 0%R) by (apply not_0_INR; lia). now field.
Qed.

(** ** generate *)

(** When the colour of every coordinate can be computed, [render] returns
    a buffer of the asked shape whose pixel [[j][i]] is the one computed
    from sample [i] of the first axis and sample [j] of the second. *)
Lemma render_ok (color : R -> R -> exc (R * R * R)) (x0 x1 y0 y1 : R)
  (height width : nat) :
  (forall x y, exists rgb, color x y = Ok rgb) ->
  exists pix : buffer,
    render color [x0; x1] [y0; y1] height width = Ok pix /\
    has_shape height width pix /\
    forall j i, j < height -> i < width ->
      exists p : pixel,
        pixel_of color (nth i (linspace x0 x1 width) 0%R)
                       (nth j (linspace y0 y1 height) 0%R) = Ok p /\
        getitem pix j i = Some p.
Proof.
  intros Hc.
  destruct (@outer_loop color (linspace x0 x1 width) (linspace y0 y1 height) Hc)
    as (pix & Hrun & Hshape & Hcells).
  rewrite !length_linspace in *.
  exists pix. split; [exact Hrun|]. split; [exact Hshape|].
  intros j i Hj Hi. apply Hcells; assumption.
Qed.

Lemma gradient_ok (x : R) (cmap : list control_point) :
  0 < length cmap -> exists rgb, gradient x 1 cmap 1 = Ok rgb.
Proof.
  intros Hn. unfold gradient.
  rewrite !channel_sum_ok by (lra || exact Hn). simpl. eexists; reflexivity.
Qed.

Lemma color_input_ok (n iter_limit : Z) :
  (iter_limit <> 0)%Z -> exists s, color_input n iter_limit = Ok s.
Proof.
  intros Hi. unfold color_input. rewrite true_div_ok by (apply not_0_IZR; exact Hi).
  eexists; reflexivity.
Qed.

Lemma pixel_at_pixel_of (g : FractalGenerator) (x y : R) :
  pixel_at g x y = pixel_of (color g) x y.
Proof. reflexivity. Qed.

Lemma generate_render (g : FractalGenerator) (height width : nat) :
  generate g height width = render (color g) (bounds_x g) (bounds_y g) height width.
Proof. destruct g; reflexivity. Qed.

(** A constructed generator with [iter_limit > 0] computes a colour for
    every coordinate: no step of the pixel computation raises. *)
Lemma color_ok (g : FractalGenerator) (x y : R) :
  constructed g -> iter_limit_positive g -> exists rgb, color g x y = Ok rgb.
Proof.
  intros (_ & _ & Hc) Hi. destruct g as [g|g|g]; simpl in *.
  - apply gradient_ok. lia.
  - unfold MandelbrotFractal.color, MandelbrotFractal.scalar.
    destruct (@color_input_ok (MandelbrotFractal.num_iterations g (x, y))
                (MandelbrotFractal.iter_limit g)) as [s Hs]; [lia|].
    rewrite Hs. simpl. apply gradient_ok. lia.
  - unfold JuliaFractal.color, JuliaFractal.scalar.
    destruct (@color_input_ok (JuliaFractal.num_iterations g (x, y))
                (JuliaFractal.iter_limit g)) as [s Hs]; [lia|].
    rewrite Hs. simpl. apply gradient_ok. lia.
Qed.

Lemma two_values (l : list R) : length l = 2 -> exists a b, l = [a; b].
Proof.
  destruct l as [|a [|b [|c l]]]; simpl; intros H; try discriminate.
  now exists a, b.
Qed.

(** C9: for a constructed generator with [iter_limit > 0] and a height and
    width above 1, [generate] returns a buffer of that shape; its pixel
    [[0][0]] is the one computed from the lower bounds, its pixel
    [[height-1][width-1]] the one computed from the upper bounds, and its
    pixel [[j][i]] the one computed from the evenly spaced samples
    [x0 + i (x1 - x0) / (width - 1)] and [y0 + j (y1 - y0) / (height - 1)]. *)
Theorem generate_coordinate_mapping (g : FractalGenerator) (height width : nat) :
  constructed g -> iter_limit_positive g -> 1 < height -> 1 < width ->
  exists (x0 x1 y0 y1 : R) (pix : buffer),
    bounds_x g = [x0; x1] /\ bounds_y g = [y0; y1] /\
    generate g height width = Ok pix /\
    has_shape height width pix /\
    (exists p, pixel_at g x0 y0 = Ok p /\ getitem pix 0 0 = Some p) /\
    (exists p, pixel_at g x1 y1 = Ok p /\
               getitem pix (height - 1) (width - 1) = Some p) /\
    (forall j i, j < height -> i < width ->
       exists p,
         pixel_at g (x0 + INR i * (x1 - x0) / INR (width - 1))%R
                    (y0 + INR j * (y1 - y0) / INR (height - 1))%R = Ok p /\
         getitem pix j i = Some p).
Proof.
  intros Hg Hi Hh Hw.
  destruct Hg as (Hbx & Hby & Hc).
  destruct (two_values _ Hbx) as (x0 & x1 & Hx).
  destruct (two_values _ Hby) as (y0 & y1 & Hy).
  destruct (@render_ok (color g) x0 x1 y0 y1 height width) as (pix & Hrun & Hshape & Hcells).
  { intros x y. apply color_ok; [repeat split; assumption|exact Hi]. }
  exists x0, x1, y0, y1, pix.
  split; [exact Hx|]. split; [exact Hy|].
  split; [rewrite generate_render, Hx, Hy; exact Hrun|].
  split; [exact Hshape|].
  split; [|split].
  - destruct (Hcells 0 0) as (p & Hp & Hget); [lia|lia|].
    rewrite !linspace_first in Hp by lia.
    exists p. now rewrite pixel_at_pixel_of.
  - destruct (Hcells (height - 1) (width - 1)) as (p & Hp & Hget); [lia|lia|].
    rewrite !linspace_last in Hp by lia.
    exists p. now rewrite pixel_at_pixel_of.
  - intros j i Hj Hi'. destruct (Hcells j i Hj Hi') as (p & Hp & Hget).
    rewrite !nth_linspace in Hp by lia.
    exists p. now rewrite pixel_at_pixel_of.
Qed.

Lemma generate_coordinate_mapping_witness :
  exists (x0 x1 y0 y1 : R) (pix : buffer),
    bounds_x (Mandelbrot default_mandelbrot) = [x0; x1] /\
    bounds_y (Mandelbrot default_mandelbrot) = [y0; y1] /\
    generate (Mandelbrot default_mandelbrot) 2 3 = Ok pix /\
    has_shape 2 3 pix /\
    (exists p, pixel_at (Mandelbrot default_mandelbrot) x0 y0 = Ok p /\
               getitem pix 0 0 = Some p) /\
    (exists p, pixel_at (Mandelbrot default_mandelbrot) x1 y1 = Ok p /\
               getitem pix (2 - 1) (3 - 1) = Some p) /\
    (forall j i, j < 2 -> i < 3 ->
       exists p,
         pixel_at (Mandelbrot default_mandelbrot)
                  (x0 + INR i * (x1 - x0) / INR (3 - 1))%R
                  (y0 + INR j * (y1 - y0) / INR (2 - 1))%R = Ok p /\
         getitem pix j i = Some p).
Proof.
  apply (@generate_coordinate_mapping (Mandelbrot default_mandelbrot) 2 3).
  - repeat split; simpl; lia.
  - simpl. lia.
  - lia.
  - lia.
Defined.

(** ** Pixel storage *)

Lemma int8_wrap_low (z : Z) : (0 <= z <= 127)%Z -> Int8.wrap z = z.
Proof. unfold Int8.wrap. intros Hz. rewrite Z.mod_small; lia. Qed.

Lemma int8_wrap_high (z : Z) : (128 <= z <= 255)%Z -> Int8.wrap z = (z - 256)%Z.
Proof.
  unfold Int8.wrap. intros Hz.
  replace (z + 128)%Z with (z - 128 + 1 * 256)%Z by lia.
  rewrite Z.mod_add, Z.mod_small; lia.
Qed.

Lemma trunc_nonneg (v : R) : (0 <= v)%R -> trunc v = Zfloor v.
Proof.
  intros Hv. unfold trunc. destruct (Rle_dec 0 v); [reflexivity|contradiction].
Qed.

(** A channel value below 128/255 is stored as the truncation of
    [255 * g]. *)
Lemma store_int8_low (g : R) :
  (0 <= g < 128 / 255)%R ->
  store_int8 (255 * g) = Zfloor (255 * g) /\ (0 <= store_int8 (255 * g) <= 127)%Z.
Proof.
  intros Hg. unfold store_int8. rewrite trunc_nonneg by lra.
  assert (Hlo : (0 <= Zfloor (255 * g))%Z) by (apply Zfloor_lub; simpl; lra).
  assert (Hhi : (Zfloor (255 * g) < 128)%Z).
  { apply lt_IZR. destruct (Zfloor_bound (255 * g)) as [Hb _]. lra. }
  rewrite int8_wrap_low by lia. lia.
Qed.

(** A channel value from 128/255 on is stored 256 below the truncation
    of [255 * g]: as a negative number. *)
Lemma store_int8_high (g : R) :
  (128 / 255 <= g <= 1)%R ->
  store_int8 (255 * g) = (Zfloor (255 * g) - 256)%Z /\
  (-128 <= store_int8 (255 * g) <= -1)%Z.
Proof.
  intros Hg. unfold store_int8. rewrite trunc_nonneg by lra.
  assert (Hlo : (128 <= Zfloor (255 * g))%Z) by (apply Zfloor_lub; lra).
  assert (Hhi : (Zfloor (255 * g) <= 255)%Z).
  { apply le_IZR. destruct (Zfloor_bound (255 * g)) as [Hb _]. lra. }
  rewrite int8_wrap_high by lia. lia.
Qed.

Lemma store_int8_255 : store_int8 (255 * 1) = (-1)%Z.
Proof.
  destruct (@store_int8_high 1) as [Hs _]; [lra|].
  rewrite Hs. replace (255 * 1)%R with (IZR 255) by (simpl; lra).
  now rewrite ZfloorZ.
Qed.

(** The docstring's map gives white at the end of the gradient. *)
Lemma gradient_docstring_map_end : gradient 1 1 docstring_map 1 = Ok (1, 1, 1)%R.
Proof.
  unfold gradient. rewrite !channel_sum_ok by (lra || (simpl; lia)). simpl bind.
  assert (Hw : weight 1 1 3 1 (1, (1, 1, 1))%R = 1%R).
  { unfold weight, location. simpl fst.
    replace (- (1 - 1 * 1) ^ 2 / (2 * (1 / (1 * INR 3)) ^ 2))%R
      with 0%R by (simpl; field).
    apply exp_0. }
  pose proof (weight_pos 1 1 3 1 (2 / 10, (0, 0, 5 / 10))%R) as Hp.
  unfold docstring_map. simpl map. rewrite !sum_cons.
  unfold red, green, blue. simpl fst; simpl snd. rewrite Hw.
  unfold sum. simpl fold_left.
  repeat f_equal; apply Rmin_left; lra.
Qed.

(** C2: a channel of [generate] is to be an integer in [0, 255], and the
    truncation of [255 * g] is to survive storage.  The 1x1 image of the
    generator above has the channel value [g = 1] three times, whose
    truncation is 255, and the buffer holds -1 in its place. *)
Theorem generate_stores_white_as_negative :
  generate (Mandelbrot mandelbrot_docstring_map) 1 1 = Ok [[(-1, -1, -1)%Z]] /\
  trunc (255 * 1) = 255%Z.
Proof.
  split.
  - simpl. unfold MandelbrotFractal.generate, render. simpl.
    unfold for_enumerate. simpl.
    unfold MandelbrotFractal.color.
    destruct (@mandelbrot_bounded mandelbrot_docstring_map (0, 0)%R) as [_ Hs].
    + simpl. lia.
    + intros k _. rewrite orbit_origin, cabs_origin. simpl. lra.
    + rewrite Hs. simpl bind.
      change (MandelbrotFractal.colormap mandelbrot_docstring_map) with docstring_map.
      rewrite gradient_docstring_map_end. simpl.
      rewrite store_int8_255. reflexivity.
  - rewrite trunc_nonneg by lra.
    replace (255 * 1)%R with (IZR 255) by (simpl; lra). apply ZfloorZ.
Qed.

(** ** Construction *)

(** The loop rule for a body that may raise: the loop returns with the
    invariant, or raises what a round of the body raised. *)
Lemma for_enumerate_from_raises {A S : Type} (Inv : S -> Prop) (E : exception -> Prop)
  (xs : list A) (body : nat -> A -> S -> exc S) (i : nat) (s : S) :
  Inv s ->
  (forall k x s0, nth_error xs k = Some x -> Inv s0 ->
     match body (i + k) x s0 with Ok s1 => Inv s1 | Raise e => E e end) ->
  match for_enumerate_from i xs body s with Ok s' => Inv s' | Raise e => E e end.
Proof.
  revert i s; induction xs as [|x xs IH]; intros i s Hinv Hbody; simpl.
  - exact Hinv.
  - pose proof (Hbody 0 x s eq_refl Hinv) as H0. rewrite Nat.add_0_r in H0.
    destruct (body i x s) as [s1|e]; simpl; [|exact H0].
    apply IH; [exact H0|].
    intros k y s0 Hk Hs0.
    replace (Datatypes.S i + k) with (i + Datatypes.S k) by lia.
    apply Hbody; assumption.
Qed.

(** Whatever [render] raises on two-valued bounds was raised by the
    computation of a colour. *)
Lemma render_raises (color : R -> R -> exc (R * R * R)) (E : exception -> Prop)
  (x0 x1 y0 y1 : R) (height width : nat) :
  (forall x y e, color x y = Raise e -> E e) ->
  match render color [x0; x1] [y0; y1] height width with
  | Ok pix => has_shape height width pix
  | Raise e => E e
  end.
Proof.
  intros Hc. unfold render, for_enumerate.
  apply for_enumerate_from_raises with (Inv := has_shape height width);
    [apply has_shape_zeros|].
  intros i x pix Hx Hshape. simpl.
  assert (Hi : i < width).
  { rewrite <- (length_linspace x0 x1 width). apply nth_error_Some. congruence. }
  apply for_enumerate_from_raises with (Inv := has_shape height width); [exact Hshape|].
  intros j y pix0 Hy Hshape0. simpl.
  assert (Hj : j < height).
  { rewrite <- (length_linspace y0 y1 height). apply nth_error_Some. congruence. }
  destruct (color x y) as [rgb|e] eqn:Hrgb; simpl; [|now apply (Hc x y)].
  destruct (@setitem_spec pix0 j i (store_pixel rgb) _ _ Hshape0 Hj Hi)
    as (pix1 & Hset & Hshape1 & _).
  rewrite Hset. exact Hshape1.
Qed.

Lemma color_raises (g : FractalGenerator) (x y : R) (e : exception) :
  constructed g -> color g x y = Raise e -> e = ZeroDivisionError.
Proof.
  intros (_ & _ & Hc). destruct g as [g|g|g]; simpl in *.
  - destruct (@gradient_ok (CustomFractal.function g x y) (CustomFractal.colormap g))
      as [rgb Hrgb]; [lia|].
    unfold CustomFractal.color. rewrite Hrgb. discriminate.
  - unfold MandelbrotFractal.color, MandelbrotFractal.scalar, color_input, true_div.
    destruct (Req_dec_T _ 0); simpl; [congruence|].
    destruct (@gradient_ok (IZR (MandelbrotFractal.num_iterations g (x, y))
                            / IZR (MandelbrotFractal.iter_limit g))%R
                (MandelbrotFractal.colormap g)) as [rgb Hrgb]; [lia|].
    rewrite Hrgb. discriminate.
  - unfold JuliaFractal.color, JuliaFractal.scalar, color_input, true_div.
    destruct (Req_dec_T _ 0); simpl; [congruence|].
    destruct (@gradient_ok (IZR (JuliaFractal.num_iterations g (x, y))
                            / IZR (JuliaFractal.iter_limit g))%R
                (JuliaFractal.colormap g)) as [rgb Hrgb]; [lia|].
    rewrite Hrgb. discriminate.
Qed.

(** With [iter_limit = 0] the division of the count raises. *)
Lemma mandelbrot_color_zero_iter_limit (self : MandelbrotFractal.t) (x y : R) :
  MandelbrotFractal.iter_limit self = 0%Z ->
  MandelbrotFractal.color self x y = Raise ZeroDivisionError.
Proof.
  intros Hi. unfold MandelbrotFractal.color, MandelbrotFractal.scalar, color_input.
  rewrite Hi. simpl IZR. now rewrite true_div_zero.
Qed.

(** A constructed generator raises nothing at generation time but the
    division by an [iter_limit] of zero. *)
Lemma generate_raises (g : FractalGenerator) (height width : nat) (e : exception) :
  constructed g -> generate g height width = Raise e -> e = ZeroDivisionError.
Proof.
  intros Hg Hrun. pose proof Hg as (Hbx & Hby & _).
  destruct (two_values _ Hbx) as (x0 & x1 & Hx).
  destruct (two_values _ Hby) as (y0 & y1 & Hy).
  rewrite generate_render, Hx, Hy in Hrun.
  pose proof (@render_raises (color g) (fun e => e = ZeroDivisionError)
                x0 x1 y0 y1 height width) as Hr.
  rewrite Hrun in Hr. apply Hr.
  intros x y e0. now apply color_raises.
Qed.

Lemma mandelbrot_init_ok (bounds_real bounds_imag : list R) (bound_limit : R)
  (iter_limit : Z) (colormap : list control_point) :
  length bounds_real = 2 -> length bounds_imag = 2 -> 2 <= length colormap ->
  MandelbrotFractal.init bounds_real bounds_imag bound_limit iter_limit colormap =
  Ok {| MandelbrotFractal.bounds_real := bounds_real;
        MandelbrotFractal.bounds_imag := bounds_imag;
        MandelbrotFractal.bound_limit := bound_limit;
        MandelbrotFractal.iter_limit := iter_limit;
        MandelbrotFractal.colormap := colormap |}.
Proof.
  intros Hr Hi Hc. unfold MandelbrotFractal.init.
  apply Nat.eqb_eq in Hr, Hi. apply Nat.leb_le in Hc.
  rewrite Hr, Hi, Hc. reflexivity.
Qed.

Lemma mandelbrot_init_raises (bounds_real bounds_imag : list R) (bound_limit : R)
  (iter_limit : Z) (colormap : list control_point) :
  length bounds_real <> 2 \/ length bounds_imag <> 2 \/ length colormap < 2 ->
  exists msg,
    MandelbrotFractal.init bounds_real bounds_imag bound_limit iter_limit colormap =
    Raise (AssertionError msg).
Proof.
  intros Hbad. unfold MandelbrotFractal.init.
  destruct (Nat.eqb_spec (length bounds_real) 2) as [Hr|Hr]; [|eexists; reflexivity].
  destruct (Nat.eqb_spec (length bounds_imag) 2) as [Hi|Hi]; [|eexists; reflexivity].
  destruct (Nat.leb_spec 2 (length colormap)) as [Hc|Hc]; [lia|eexists; reflexivity].
Qed.

(** C10: [MandelbrotFractal.__init__] raises an assertion error exactly
    when [bounds_real] or [bounds_imag] does not hold two values or the
    colormap holds fewer than two points, and otherwise returns the
    generator with the given fields; a generator it returned raises no
    validation error at generation time (only, for [iter_limit = 0], the
    division by zero). *)
Theorem mandelbrot_init_validation (bounds_real bounds_imag : list R) (bound_limit : R)
  (iter_limit : Z) (colormap : list control_point) :
  ((length bounds_real <> 2 \/ length bounds_imag <> 2 \/ length colormap < 2) <->
   (exists msg,
      MandelbrotFractal.init bounds_real bounds_imag bound_limit iter_limit colormap =
      Raise (AssertionError msg))) /\
  ((length bounds_real = 2 /\ length bounds_imag = 2 /\ 2 <= length colormap) <->
   MandelbrotFractal.init bounds_real bounds_imag bound_limit iter_limit colormap =
   Ok {| MandelbrotFractal.bounds_real := bounds_real;
         MandelbrotFractal.bounds_imag := bounds_imag;
         MandelbrotFractal.bound_limit := bound_limit;
         MandelbrotFractal.iter_limit := iter_limit;
         MandelbrotFractal.colormap := colormap |}) /\
  (forall self : MandelbrotFractal.t,
     MandelbrotFractal.init bounds_real bounds_imag bound_limit iter_limit colormap
     = Ok self ->
     constructed (Mandelbrot self) /\
     forall height width e,
       generate (Mandelbrot self) height width = Raise e -> e = ZeroDivisionError).
Proof.
  assert (Hdec : (length bounds_real = 2 /\ length bounds_imag = 2 /\ 2 <= length colormap)
                 \/ (length bounds_real <> 2 \/ length bounds_imag <> 2
                     \/ length colormap < 2)) by lia.
  split; [|split].
  - split; [apply mandelbrot_init_raises|].
    intros [msg Hmsg]. destruct Hdec as [(Hr & Hi & Hc)|Hbad]; [|exact Hbad].
    rewrite mandelbrot_init_ok in Hmsg by assumption. discriminate.
  - split; [intros (Hr & Hi & Hc); now apply mandelbrot_init_ok|].
    intros Hok. destruct Hdec as [Hgood|Hbad]; [exact Hgood|].
    destruct (@mandelbrot_init_raises _ _ bound_limit iter_limit _ Hbad) as [msg Hmsg].
    congruence.
  - intros self Hok.
    assert (Hg : constructed (Mandelbrot self)).
    { destruct Hdec as [(Hr & Hi & Hc)|Hbad].
      - rewrite mandelbrot_init_ok in Hok by assumption. injection Hok as <-.
        repeat split; assumption.
      - destruct (@mandelbrot_init_raises _ _ bound_limit iter_limit _ Hbad) as [msg Hmsg].
        congruence. }
    split; [exact Hg|].
    intros height width e. now apply generate_raises.
Qed.

(** The two failing constructions the specification names. *)
Lemma mandelbrot_init_examples :
  MandelbrotFractal.init [-2; 0; 0.5]%R [-1; 1]%R 1000 100 default_colormap
    = Raise (AssertionError "bounds_real must have two values") /\
  MandelbrotFractal.init [-2; 0.5]%R [-1; 1]%R 1000 100 [(0, (0, 0, 0))%R]
    = Raise (AssertionError "colormap must have at least two points") /\
  MandelbrotFractal.init [-2; 0.5]%R [-1; 1]%R 1000 100 default_colormap
    = Ok default_mandelbrot.
Proof. repeat split. Qed.

(** * Further properties of the code *)

(** ** corrupt: every offset *)

Lemma int8_wrap_in_range (z : Z) : Int8.in_range (Int8.wrap z).
Proof.
  unfold Int8.in_range, Int8.wrap.
  pose proof (Z.mod_pos_bound (z + 128) 256 ltac:(lia)). lia.
Qed.

Lemma add_pixel_in_range (p q : pixel) : pixel_in_range (add_pixel p q).
Proof.
  destruct p as [[r1 g1] b1], q as [[r2 g2] b2]. simpl.
  repeat split; apply int8_wrap_in_range.
Qed.

Lemma int8_buffer_add_buffer (a b : buffer) : int8_buffer (add_buffer a b).
Proof.
  unfold int8_buffer, add_buffer.
  revert b; induction a as [|r a IH]; intros [|r' b]; simpl; constructor; [|apply IH].
  unfold add_row. clear. revert r'; induction r as [|p r IH]; intros [|q r'];
    simpl; constructor; [apply add_pixel_in_range|apply IH].
Qed.

Lemma has_shape_add_buffer (a b : buffer) (height width : nat) :
  has_shape height width a -> has_shape height width b ->
  has_shape height width (add_buffer a b).
Proof.
  intros [Hla Hra] [Hlb Hrb]. subst height. split.
  - unfold add_buffer. rewrite length_map2. lia.
  - clear Hlb. unfold add_buffer. revert b Hrb.
    induction Hra as [|r a Hr _ IH]; intros [|r' b] Hrb; simpl; constructor.
    + inversion Hrb; subst. unfold add_row. rewrite length_map2. lia.
    + inversion Hrb; subst. now apply IH.
Qed.

Lemma has_shape_zeros_like (src : buffer) (height width : nat) :
  has_shape height width src -> has_shape height width (zeros_like src).
Proof.
  intros [Hl Hr]. split; [now rewrite length_zeros_like|].
  unfold zeros_like. apply Forall_map. eapply Forall_impl; [|exact Hr].
  intros r Hlr. simpl. now rewrite length_map.
Qed.

(** The overlay for an offset at or beyond the last row is all zero. *)
Lemma overlay_beyond (src : buffer) (offset : Z) :
  (Z.of_nat (length src) <= offset)%Z ->
  setslice (zeros_like src) None (Some (- offset)%Z) (getslice src (Some offset) None)
  = Ok (zeros_like src).
Proof.
  intros Ho. unfold setslice, getslice, slice_bounds.
  rewrite length_zeros_like.
  assert (Hhi : slice_index (length src) (- offset) = 0).
  { unfold slice_index. destruct (Z.ltb_spec (- offset) 0); lia. }
  assert (Hlo : slice_index (length src) offset = length src).
  { unfold slice_index. destruct (Z.ltb_spec offset 0); lia. }
  rewrite Hhi, Hlo, Nat.sub_diag. reflexivity.
Qed.

(** The overlay for the offset [- k], [0 < k < height]: the last [k] rows,
    followed by zero rows. *)
Lemma overlay_negative (src : buffer) (k : Z) :
  (0 < k < Z.of_nat (length src))%Z ->
  setslice (zeros_like src) None (Some (- - k)%Z) (getslice src (Some (- k)%Z) None)
  = Ok (skipn (length src - Z.to_nat k) src ++ skipn (Z.to_nat k) (zeros_like src)).
Proof.
  intros Hk. unfold setslice, getslice, slice_bounds.
  rewrite length_zeros_like, Z.opp_involutive.
  rewrite slice_index_neg, slice_index_nonneg by lia.
  rewrite Nat.sub_0_r.
  assert (Hf : firstn (length src - (length src - Z.to_nat k))
                 (skipn (length src - Z.to_nat k) src)
               = skipn (length src - Z.to_nat k) src).
  { apply firstn_all2. rewrite length_skipn. lia. }
  rewrite Hf, length_skipn.
  replace (length src - (length src - Z.to_nat k)) with (Z.to_nat k) by lia.
  rewrite Nat.eqb_refl. reflexivity.
Qed.

(** The overlay for an offset [- k] with [k] at least the height: all of
    the source. *)
Lemma overlay_negative_beyond (src : buffer) (k : Z) :
  (0 < k)%Z -> (Z.of_nat (length src) <= k)%Z ->
  setslice (zeros_like src) None (Some (- - k)%Z) (getslice src (Some (- k)%Z) None)
  = Ok src.
Proof.
  intros Hk Hh. unfold setslice, getslice, slice_bounds.
  rewrite length_zeros_like, Z.opp_involutive.
  assert (Hhi : slice_index (length src) k = length src).
  { unfold slice_index. destruct (Z.ltb_spec k 0); lia. }
  assert (Hlo : slice_index (length src) (- k) = 0).
  { unfold slice_index. destruct (Z.ltb_spec (- k) 0); lia. }
  rewrite Hhi, Hlo, Nat.sub_0_r, firstn_all, Nat.eqb_refl. simpl.
  rewrite skipn_all2 by (rewrite length_zeros_like; lia).
  now rewrite app_nil_r.
Qed.

(** X1: for either axis and an offset inside an int8 buffer of shape
    (height, width, 3), [corrupt] returns a buffer of the same shape whose
    row [j] is [src[j] + src[j + offset]] (int8 sums) for
    [j < height - offset] and [src[j]] for the last [offset] rows. *)
Theorem corrupt_adds_later_rows (src : buffer) (offset : Z) (axis : string)
  (height width : nat) :
  axis = "x"%string \/ axis = "y"%string ->
  has_shape height width src -> int8_buffer src ->
  (0 < offset < Z.of_nat height)%Z ->
  exists res : buffer,
    corrupt src offset axis = Ok (Some res) /\
    has_shape height width res /\
    forall j, j < height ->
      nth j res [] =
        if j <? height - Z.to_nat offset
        then add_row (nth j src []) (nth (j + Z.to_nat offset) src [])
        else nth j src [].
Proof.
  intros Hax Hshape Hr Ho.
  destruct Hax as [-> | ->]; [rewrite corrupt_x_eq_y|];
    now apply corrupt_y_shift_add.
Qed.

Lemma corrupt_adds_later_rows_witness :
  exists res : buffer,
    corrupt buffer_3x1 1 "x" = Ok (Some res) /\
    has_shape 3 1 res /\
    forall j, j < 3 ->
      nth j res [] =
        if j <? 3 - Z.to_nat 1
        then add_row (nth j buffer_3x1 []) (nth (j + Z.to_nat 1) buffer_3x1 [])
        else nth j buffer_3x1 [].
Proof.
  apply (@corrupt_adds_later_rows buffer_3x1 1 "x" 3 1).
  - left; reflexivity.
  - split; [reflexivity|]. repeat constructor.
  - repeat constructor; unfold Int8.in_range; lia.
  - lia.
Defined.

(** X2: for either axis, an offset at or beyond the number of rows leaves
    nothing to add: [corrupt] returns an int8 buffer unchanged, without
    raising. *)
Theorem corrupt_offset_beyond_height (src : buffer) (offset : Z) (axis : string) :
  axis = "x"%string \/ axis = "y"%string ->
  int8_buffer src ->
  (Z.of_nat (length src) <= offset)%Z ->
  corrupt src offset axis = Ok (Some src).
Proof.
  intros Hax Hr Ho.
  assert (Hy : corrupt src offset "y" = Ok (Some src)).
  { unfold corrupt. simpl. rewrite overlay_beyond by exact Ho. simpl.
    now rewrite add_buffer_zeros_like. }
  destruct Hax as [-> | ->]; [rewrite corrupt_x_eq_y|]; exact Hy.
Qed.

Lemma corrupt_offset_beyond_height_witness :
  corrupt buffer_3x1 40 "y" = Ok (Some buffer_3x1).
Proof.
  apply (@corrupt_offset_beyond_height buffer_3x1 40 "y").
  - right; reflexivity.
  - repeat constructor; unfold Int8.in_range; lia.
  - simpl. lia.
Defined.

Lemma nth_error_overlay_negative (src : buffer) (k j : nat) :
  0 < k < length src -> j < length src ->
  nth_error (skipn (length src - k) src ++ skipn k (zeros_like src)) j =
  if j <? k then nth_error src (length src - k + j)
  else option_map (map (fun _ => zero_pixel)) (nth_error src j).
Proof.
  intros Hk Hj. destruct (Nat.ltb_spec j k) as [Hlt|Hge].
  - rewrite nth_error_app1 by (rewrite length_skipn; lia).
    apply nth_error_skipn.
  - rewrite nth_error_app2 by (rewrite length_skipn; lia).
    rewrite length_skipn, nth_error_skipn.
    replace (k + (j - (length src - (length src - k)))) with j by lia.
    unfold zeros_like. apply nth_error_map.
Qed.

(** X3: a negative offset [- k] with [0 < k < height] shifts the other
    way: for either axis [corrupt] adds the last [k] rows onto the first
    [k] rows, row [j < k] becoming [src[j] + src[height - k + j]], and
    leaves the other rows of an int8 buffer as they are. *)
Theorem corrupt_negative_offset (src : buffer) (k : Z) (axis : string) :
  axis = "x"%string \/ axis = "y"%string ->
  int8_buffer src ->
  (0 < k < Z.of_nat (length src))%Z ->
  exists res : buffer,
    corrupt src (- k) axis = Ok (Some res) /\
    length res = length src /\
    forall j, j < length src ->
      nth j res [] =
        if j <? Z.to_nat k
        then add_row (nth j src []) (nth (length src - Z.to_nat k + j) src [])
        else nth j src [].
Proof.
  intros Hax Hr Hk.
  assert (Hy : exists res : buffer,
             corrupt src (- k) "y" = Ok (Some res) /\
             length res = length src /\
             forall j, j < length src ->
               nth j res [] =
                 if j <? Z.to_nat k
                 then add_row (nth j src []) (nth (length src - Z.to_nat k + j) src [])
                 else nth j src []).
  { unfold corrupt. simpl. rewrite overlay_negative by exact Hk. simpl.
    eexists; split; [reflexivity|]. split.
    - unfold add_buffer.
      rewrite length_map2, length_app, !length_skipn, length_zeros_like. lia.
    - intros j Hj.
      assert (Hsrc : nth_error src j = Some (nth j src [])) by now apply nth_error_nth'.
      apply nth_error_nth. unfold add_buffer.
      rewrite nth_error_map2, nth_error_overlay_negative, Hsrc by lia.
      destruct (Nat.ltb_spec j (Z.to_nat k)) as [Hlt|Hge].
      + rewrite (nth_error_nth' src []) by lia. reflexivity.
      + simpl. rewrite add_row_zero; [reflexivity|].
        unfold int8_buffer in Hr. rewrite Forall_forall in Hr.
        apply Hr. eapply nth_error_In; eassumption. }
  destruct Hax as [-> | ->]; [rewrite corrupt_x_eq_y|]; exact Hy.
Qed.

Lemma corrupt_negative_offset_witness :
  exists res : buffer,
    corrupt buffer_3x1 (- 1) "y" = Ok (Some res) /\
    length res = length buffer_3x1 /\
    forall j, j < length buffer_3x1 ->
      nth j res [] =
        if j <? Z.to_nat 1
        then add_row (nth j buffer_3x1 [])
               (nth (length buffer_3x1 - Z.to_nat 1 + j) buffer_3x1 [])
        else nth j buffer_3x1 [].
Proof.
  apply (@corrupt_negative_offset buffer_3x1 1 "y").
  - right; reflexivity.
  - repeat constructor; unfold Int8.in_range; lia.
  - simpl. lia.
Defined.

(** X4: a negative offset [- k] with [k] at least the number of rows makes
    the overlay the whole source: for either axis [corrupt] returns the
    buffer added to itself, twice every channel in int8 arithmetic. *)
Theorem corrupt_negative_offset_doubles (src : buffer) (k : Z) (axis : string) :
  axis = "x"%string \/ axis = "y"%string ->
  (0 < k)%Z -> (Z.of_nat (length src) <= k)%Z ->
  corrupt src (- k) axis = Ok (Some (double src)).
Proof.
  intros Hax Hk Hh.
  assert (Hy : corrupt src (- k) "y" = Ok (Some (double src))).
  { unfold corrupt. simpl. rewrite overlay_negative_beyond by assumption.
    reflexivity. }
  destruct Hax as [-> | ->]; [rewrite corrupt_x_eq_y|]; exact Hy.
Qed.

Lemma corrupt_negative_offset_doubles_witness :
  corrupt buffer_3x1 (- 3) "x" = Ok (Some (double buffer_3x1)).
Proof.
  apply (@corrupt_negative_offset_doubles buffer_3x1 3 "x").
  - left; reflexivity.
  - lia.
  - simpl. lia.
Defined.

(** ** gaussian and gradient: errors, scale and order *)

Close Scope nat_scope.
Open Scope R_scope.

Lemma sq_pos (c : R) : c <> 0 -> 0 < c ^ 2.
Proof.
  intros Hc. simpl. destruct (Rdichotomy _ _ Hc); nra.
Qed.

Lemma sq_nonneg (c : R) : 0 <= c ^ 2.
Proof. simpl. nra. Qed.

Lemma two_sq_zero (c : R) : 2 * c ^ 2 = 0 <-> c = 0.
Proof.
  split; [|intros ->; ring].
  intros H. destruct (Req_dec_T c 0) as [Hc|Hc]; [exact Hc|].
  exfalso. pose proof (sq_pos Hc). lra.
Qed.

Lemma exp_nonpos_le_1 (q : R) : q <= 0 -> 0 < exp q <= 1.
Proof.
  intros Hq. split; [apply exp_pos|].
  destruct Hq as [Hq| ->]; [|rewrite exp_0; lra].
  rewrite <- exp_0. left. now apply exp_increasing.
Qed.

Lemma bell_exponent_nonpos (x b c : R) : - (x - b) ^ 2 / (2 * c ^ 2) <= 0.
Proof.
  destruct (Req_dec_T c 0) as [->|Hc].
  - replace (2 * 0 ^ 2) with 0 by ring. unfold Rdiv. rewrite Rinv_0. lra.
  - assert (Hpos : 0 < 2 * c ^ 2) by (pose proof (sq_pos Hc); lra).
    pose proof (sq_nonneg (x - b)) as Hsq.
    pose proof (Rinv_0_lt_compat _ Hpos) as Hinv.
    unfold Rdiv. nra.
Qed.

(** X7: for [c <> 0] the bell is centred at [b]: [gaussian] returns
    [a + d] at [x = b] and the same value at [b + t] and [b - t]; for an
    amplitude [a >= 0] every value it returns lies between [d] and the
    peak [a + d]. *)
Theorem gaussian_bell (x a b c d t : R) :
  c <> 0 ->
  gaussian b a b c d = Ok (a + d) /\
  gaussian (b + t) a b c d = gaussian (b - t) a b c d /\
  (0 <= a -> exists v, gaussian x a b c d = Ok v /\ d <= v <= a + d).
Proof.
  intros Hc.
  assert (Hz : 2 * c ^ 2 <> 0) by (intros Hz; apply Hc; now apply two_sq_zero).
  unfold gaussian. rewrite !true_div_ok by exact Hz. unfold bind.
  split; [|split].
  - replace (- (b - b) ^ 2 / (2 * c ^ 2)) with 0 by (field; exact Hc).
    rewrite exp_0. f_equal. ring.
  - replace (- (b + t - b) ^ 2 / (2 * c ^ 2)) with (- (b - t - b) ^ 2 / (2 * c ^ 2))
      by (field; exact Hc).
    reflexivity.
  - intros Ha. eexists; split; [reflexivity|].
    pose proof (exp_nonpos_le_1 (bell_exponent_nonpos x b c)). nra.
Qed.

Lemma gaussian_bell_witness :
  gaussian 5 2 5 3 1 = Ok (2 + 1) /\
  gaussian (5 + 4) 2 5 3 1 = gaussian (5 - 4) 2 5 3 1 /\
  (0 <= 2 -> exists v, gaussian 7 2 5 3 1 = Ok v /\ 1 <= v <= 2 + 1).
Proof.
  apply (@gaussian_bell 7 2 5 3 1 4). lra.
Defined.

Lemma control_point_term_raises (x a b width spread : R) (n : nat) :
  spread = 0 \/ width = 0 ->
  (c <- true_div width (spread * INR n) ;; gaussian x a b c 0)
  = Raise ZeroDivisionError.
Proof.
  intros Hz. unfold true_div at 1.
  destruct (Req_dec_T (spread * INR n) 0) as [Hd|Hd]; [reflexivity|]. unfold bind.
  destruct Hz as [-> | ->]; [exfalso; apply Hd; ring|].
  unfold gaussian.
  replace (2 * (0 / (spread * INR n)) ^ 2) with 0 by (unfold Rdiv; ring).
  now rewrite true_div_zero.
Qed.

Lemma channel_sum_raises (channel : control_point -> R) (x width : R)
  (cmap : list control_point) (spread : R) :
  cmap <> [] -> spread = 0 \/ width = 0 ->
  channel_sum channel x width cmap spread = Raise ZeroDivisionError.
Proof.
  intros Hne Hz. unfold channel_sum.
  destruct cmap as [|p rest]; [contradiction|].
  remember (length (p :: rest)) as n. cbn [comprehension].
  now rewrite control_point_term_raises.
Qed.

(** X8: two edges of [gradient].  On an empty map the comprehensions are
    empty, no division is evaluated and it returns [(0, 0, 0)], whatever
    [x], the width and the spread, a spread of zero included.  On a
    non-empty map a spread of zero raises [ZeroDivisionError], whatever
    [x] and the width: the divisor [spread * len(map)] is zero. *)
Theorem gradient_error_behaviour (x width : R) (cmap : list control_point) (spread : R) :
  gradient x width [] spread = Ok (0, 0, 0) /\
  (cmap <> [] -> gradient x width cmap 0 = Raise ZeroDivisionError).
Proof.
  split.
  - unfold gradient, channel_sum, sum. simpl.
    rewrite Rmin_right by lra. reflexivity.
  - intros Hne. unfold gradient. rewrite channel_sum_raises; [reflexivity|exact Hne|].
    now left.
Qed.

Lemma sum_ge_member {A : Type} (f : A -> R) (l : list A) (p : A) :
  (forall q, In q l -> 0 <= f q) -> In p l -> f p <= sum (map f l).
Proof.
  induction l as [|a l IH]; intros Hf Hin; [contradiction|].
  simpl map. rewrite sum_cons.
  assert (Hrest : 0 <= sum (map f l)).
  { apply sum_nonneg, Forall_map, Forall_forall. intros q Hq. apply Hf. now right. }
  destruct Hin as [->|Hin].
  - lra.
  - pose proof (Hf a (or_introl eq_refl)).
    pose proof (IH (fun q Hq => Hf q (or_intror Hq)) Hin). lra.
Qed.

Lemma weight_at_location (width : R) (n : nat) (spread : R) (p : control_point) :
  weight (location p * width) width n spread p = 1.
Proof.
  unfold weight.
  replace (- (location p * width - location p * width) ^ 2
           / (2 * (width / (spread * INR n)) ^ 2)) with 0 by (unfold Rdiv; ring).
  apply exp_0.
Qed.

(** Over non-negative colour values a channel sum at the position of a
    control point holds at least the term of that point. *)
Lemma channel_at_control_point (channel : control_point -> R) (width : R) (n : nat)
  (spread : R) (cmap : list control_point) (p : control_point) :
  (forall q, In q cmap -> 0 <= channel q) -> In p cmap ->
  channel p <=
  sum (map (fun q => channel q * weight (location p * width) width n spread q + 0) cmap).
Proof.
  intros Hc Hin.
  pose proof (@sum_ge_member control_point
                (fun q => channel q * weight (location p * width) width n spread q + 0)
                cmap p) as Hm.
  simpl in Hm. rewrite weight_at_location in Hm.
  assert (Hp : channel p * 1 + 0 <=
               sum (map (fun q => channel q * weight (location p * width) width n spread q + 0)
                      cmap)).
  { apply Hm; [|exact Hin]. intros q Hq.
    pose proof (Hc q Hq). pose proof (weight_pos (location p * width) width n spread q). nra. }
  lra.
Qed.

(** X9: at the position of one of its control points, [x = location *
    width], a gradient over non-negative colours is at least as bright as
    that control point: each channel is no less than the point's colour
    value, clamped at 1. *)
Theorem gradient_at_control_point (width : R) (cmap : list control_point) (spread : R)
  (p : control_point) :
  width <> 0 -> spread <> 0 -> In p cmap ->
  (forall q, In q cmap -> 0 <= red q /\ 0 <= green q /\ 0 <= blue q) ->
  exists r g b : R,
    gradient (location p * width) width cmap spread = Ok (r, g, b) /\
    Rmin 1 (red p) <= r /\ Rmin 1 (green p) <= g /\ Rmin 1 (blue p) <= b.
Proof.
  intros Hw Hs Hin Hc.
  assert (Hn : (0 < length cmap)%nat) by (destruct cmap; [contradiction|simpl; lia]).
  unfold gradient. rewrite !channel_sum_ok by assumption. unfold bind.
  do 3 eexists. split; [reflexivity|].
  repeat split; apply Rle_min_compat_l; apply channel_at_control_point;
    try exact Hin; intros q Hq; apply (Hc q Hq).
Qed.

Lemma gradient_at_control_point_witness :
  exists r g b : R,
    gradient (location (1, (1, 1, 1)) * 100) 100 docstring_map 1 = Ok (r, g, b) /\
    Rmin 1 (red (1, (1, 1, 1))) <= r /\ Rmin 1 (green (1, (1, 1, 1))) <= g /\
    Rmin 1 (blue (1, (1, 1, 1))) <= b.
Proof.
  apply (@gradient_at_control_point 100 docstring_map 1 (1, (1, 1, 1))).
  - lra.
  - lra.
  - right; right; left; reflexivity.
  - intros q [<-|[<-|[<-|[]]]]; unfold red, green, blue; simpl; lra.
Defined.

Lemma comprehension_ext {A B : Type} (f g : A -> exc B) (l : list A) :
  (forall a, In a l -> f a = g a) -> comprehension f l = comprehension g l.
Proof.
  induction l as [|a l IH]; intros Hfg; [reflexivity|].
  cbn [comprehension]. rewrite (Hfg a (or_introl eq_refl)).
  rewrite IH by (intros b Hb; apply Hfg; now right). reflexivity.
Qed.

Lemma gaussian_scale (k x a b c d : R) :
  k <> 0 -> gaussian (k * x) a (k * b) (k * c) d = gaussian x a b c d.
Proof.
  intros Hk. unfold gaussian, true_div.
  destruct (Req_dec_T (2 * (k * c) ^ 2) 0) as [Hz|Hz];
    destruct (Req_dec_T (2 * c ^ 2) 0) as [Hz'|Hz'].
  - reflexivity.
  - exfalso. assert (Hkc : k * c = 0) by (now apply two_sq_zero).
    apply Hz'. apply two_sq_zero.
    destruct (Rmult_integral _ _ Hkc); [contradiction|assumption].
  - exfalso. assert (Hc : c = 0) by (now apply two_sq_zero).
    apply Hz. subst c. ring.
  - assert (Hc : c <> 0) by (intros ->; apply Hz'; ring).
    assert (Hq : - (k * x - k * b) ^ 2 / (2 * (k * c) ^ 2)
                 = - (x - b) ^ 2 / (2 * c ^ 2)) by (field; split; assumption).
    unfold bind. now rewrite Hq.
Qed.

(** X10: [gradient] depends on [x] and [width] only through their ratio:
    scaling both by the same non-zero factor changes neither the colour it
    returns nor whether it raises.  The [width] is the unit of [x]. *)
Theorem gradient_scale_invariant (k x width : R) (cmap : list control_point) (spread : R) :
  k <> 0 ->
  gradient (k * x) (k * width) cmap spread = gradient x width cmap spread.
Proof.
  intros Hk.
  assert (Hch : forall channel,
             channel_sum channel (k * x) (k * width) cmap spread
             = channel_sum channel x width cmap spread).
  { intros channel. unfold channel_sum. f_equal.
    apply comprehension_ext. intros p _. unfold true_div.
    destruct (Req_dec_T (spread * INR (length cmap)) 0) as [Hd|Hd]; [reflexivity|].
    unfold bind.
    replace (k * width / (spread * INR (length cmap)))
      with (k * (width / (spread * INR (length cmap)))) by (unfold Rdiv; ring).
    replace (location p * (k * width)) with (k * (location p * width)) by ring.
    now apply gaussian_scale. }
  unfold gradient. now rewrite !Hch.
Qed.

Lemma gradient_scale_invariant_witness :
  gradient (100 * (1/2)) (100 * 1) docstring_map 1 = gradient (1/2) 1 docstring_map 1.
Proof.
  apply (@gradient_scale_invariant 100 (1/2) 1 docstring_map 1). lra.
Defined.

Lemma sum_permutation (l l' : list R) : Permutation l l' -> sum l = sum l'.
Proof.
  induction 1 as [|v l l' _ IH|v w l|l l' l'' _ IH1 _ IH2].
  - reflexivity.
  - rewrite !sum_cons, IH. reflexivity.
  - rewrite !sum_cons. lra.
  - now rewrite IH1.
Qed.

Lemma channel_sum_permutation (channel : control_point -> R) (x width : R)
  (cmap cmap' : list control_point) (spread : R) :
  Permutation cmap cmap' ->
  channel_sum channel x width cmap spread = channel_sum channel x width cmap' spread.
Proof.
  intros Hp.
  destruct cmap as [|p rest].
  { apply Permutation_nil in Hp. now subst cmap'. }
  assert (Hne : p :: rest <> []) by discriminate.
  assert (Hne' : cmap' <> []).
  { intros ->. apply Permutation_sym, Permutation_nil in Hp. discriminate. }
  destruct (Req_dec_T spread 0) as [Hs|Hs];
    [now rewrite !channel_sum_raises by (assumption || now left)|].
  destruct (Req_dec_T width 0) as [Hw|Hw];
    [now rewrite !channel_sum_raises by (assumption || now right)|].
  assert (Hn : (0 < length (p :: rest))%nat) by (simpl; lia).
  assert (Hn' : (0 < length cmap')%nat) by (rewrite <- (Permutation_length Hp); exact Hn).
  rewrite !channel_sum_ok by assumption.
  rewrite <- (Permutation_length Hp). f_equal.
  apply sum_permutation. now apply Permutation_map.
Qed.

(** X11: [gradient] does not depend on the order of the control points:
    two maps that hold the same control points in a different order give
    the same colour, or raise alike.  The sorting that the docstring asks
    of a map is not relied upon. *)
Theorem gradient_order_independent (x width : R) (cmap cmap' : list control_point)
  (spread : R) :
  Permutation cmap cmap' ->
  gradient x width cmap spread = gradient x width cmap' spread.
Proof.
  intros Hp. unfold gradient.
  now rewrite !(channel_sum_permutation _ x width spread Hp).
Qed.

Lemma gradient_order_independent_witness :
  gradient (1/2) 1 docstring_map 1 = gradient (1/2) 1 (rev docstring_map) 1.
Proof.
  apply (@gradient_order_independent (1/2) 1 docstring_map (rev docstring_map) 1).
  apply Permutation_rev.
Defined.

(** ** The escape-time loop: range and first escape *)

Lemma escape_loop_range (fuel : nat) (bound_limit : R) (iter_limit : Z)
  (c z : complex) (n : Z) :
  (n <= escape_loop fuel bound_limit iter_limit c z n)%Z /\
  ((escape_loop fuel bound_limit iter_limit c z n <= iter_limit)%Z \/
   escape_loop fuel bound_limit iter_limit c z n = n).
Proof.
  revert z n; induction fuel as [|fuel IH]; intros z n; simpl.
  - split; [lia|now right].
  - destruct (Rlt_dec (cabs z) bound_limit); [|split; [lia|now right]].
    destruct (Z.ltb_spec n iter_limit); [|split; [lia|now right]].
    destruct (IH (step c z) (n + 1)%Z) as [Hlo [Hhi|Heq]].
    + split; [lia|now left].
    + split; [lia|left; lia].
Qed.

Lemma escape_iterations_range (bound_limit : R) (iter_limit : Z) (c z : complex) :
  (0 <= iter_limit)%Z ->
  (0 <= escape_iterations bound_limit iter_limit c z <= iter_limit)%Z.
Proof.
  intros Hi. unfold escape_iterations.
  destruct (escape_loop_range (Z.to_nat iter_limit) bound_limit iter_limit c z 0)
    as [Hlo [Hhi|Heq]]; lia.
Qed.

Lemma color_input_in_unit (n iter_limit : Z) :
  (0 < iter_limit)%Z -> (0 <= n <= iter_limit)%Z ->
  exists s : R, color_input n iter_limit = Ok s /\ 0 <= s <= 1.
Proof.
  intros Hi Hn. unfold color_input.
  assert (Hpos : 0 < IZR iter_limit) by (apply IZR_lt; exact Hi).
  rewrite true_div_ok by lra. eexists; split; [reflexivity|].
  assert (H0 : 0 <= IZR n) by (apply IZR_le; lia).
  assert (H1 : IZR n <= IZR iter_limit) by (apply IZR_le; lia).
  pose proof (Rinv_0_lt_compat _ Hpos) as Hinv.
  split.
  - unfold Rdiv. nra.
  - apply Rmult_le_reg_r with (r := IZR iter_limit); [exact Hpos|].
    unfold Rdiv. rewrite Rmult_assoc, Rinv_l by lra. lra.
Qed.

(** X12: with [iter_limit > 0] the loops of [MandelbrotFractal.generate]
    and [JuliaFractal.generate] count between 0 and [iter_limit]
    iterations for every coordinate, so the scalar handed to [gradient],
    [num_iterations / iter_limit], always lies in [0, 1]. *)
Theorem scalar_in_unit_interval (m : MandelbrotFractal.t) (j : JuliaFractal.t)
  (c z : complex) :
  (0 < MandelbrotFractal.iter_limit m)%Z -> (0 < JuliaFractal.iter_limit j)%Z ->
  ((0 <= MandelbrotFractal.num_iterations m c <= MandelbrotFractal.iter_limit m)%Z /\
   exists s, MandelbrotFractal.scalar m c = Ok s /\ 0 <= s <= 1) /\
  ((0 <= JuliaFractal.num_iterations j z <= JuliaFractal.iter_limit j)%Z /\
   exists s, JuliaFractal.scalar j z = Ok s /\ 0 <= s <= 1).
Proof.
  intros Hm Hj. split; split.
  - apply escape_iterations_range; lia.
  - apply color_input_in_unit; [exact Hm|apply escape_iterations_range; lia].
  - apply escape_iterations_range; lia.
  - apply color_input_in_unit; [exact Hj|apply escape_iterations_range; lia].
Qed.

Lemma scalar_in_unit_interval_witness :
  ((0 <= MandelbrotFractal.num_iterations default_mandelbrot (1, 1)%R
    <= MandelbrotFractal.iter_limit default_mandelbrot)%Z /\
   exists s, MandelbrotFractal.scalar default_mandelbrot (1, 1) = Ok s /\ 0 <= s <= 1) /\
  ((0 <= JuliaFractal.num_iterations default_julia (1, 1)%R
    <= JuliaFractal.iter_limit default_julia)%Z /\
   exists s, JuliaFractal.scalar default_julia (1, 1) = Ok s /\ 0 <= s <= 1).
Proof.
  apply (@scalar_in_unit_interval default_mandelbrot default_julia (1, 1) (1, 1));
    simpl; lia.
Defined.

(** The count is the index of the first orbit point at or beyond the
    bound, or the limit when there is none before it. *)
Lemma escape_loop_first_escape (n fuel : nat) (bound_limit : R) (iter_limit : Z)
  (c z : complex) (n0 : Z) :
  (n <= fuel)%nat ->
  (n0 + Z.of_nat n <= iter_limit)%Z ->
  (forall k, (k < n)%nat -> cabs (orbit c z k) < bound_limit) ->
  ((n0 + Z.of_nat n < iter_limit)%Z -> bound_limit <= cabs (orbit c z n)) ->
  escape_loop fuel bound_limit iter_limit c z n0 = (n0 + Z.of_nat n)%Z.
Proof.
  revert fuel z n0; induction n as [|n IH]; intros fuel z n0 Hf Hn Hin Hout.
  - destruct fuel as [|fuel]; simpl; [lia|].
    destruct (Rlt_dec (cabs z) bound_limit) as [Hz|Hz]; [|lia].
    destruct (Z.ltb_spec n0 iter_limit) as [Hlt|Hge]; [|lia].
    exfalso. simpl in Hout. specialize (Hout ltac:(lia)). lra.
  - destruct fuel as [|fuel]; [lia|]. simpl escape_loop.
    destruct (Rlt_dec (cabs z) bound_limit) as [Hz|Hz].
    + destruct (Z.ltb_spec n0 iter_limit) as [Hlt|Hge]; [|lia].
      rewrite (IH fuel (step c z) (n0 + 1)%Z); try lia.
      * intros k Hk. apply (Hin (S k)). lia.
      * intros Hlt'. apply Hout. lia.
    + exfalso. apply Hz. apply (Hin 0%nat). lia.
Qed.

Lemma escape_iterations_first_escape (n : nat) (bound_limit : R) (iter_limit : Z)
  (c z : complex) :
  (Z.of_nat n <= iter_limit)%Z ->
  (forall k, (k < n)%nat -> cabs (orbit c z k) < bound_limit) ->
  ((Z.of_nat n < iter_limit)%Z -> bound_limit <= cabs (orbit c z n)) ->
  escape_iterations bound_limit iter_limit c z = Z.of_nat n.
Proof.
  intros Hn Hin Hout. unfold escape_iterations.
  rewrite (@escape_loop_first_escape n); try lia; assumption.
Qed.

Lemma color_input_value (n iter_limit : Z) :
  (0 < iter_limit)%Z -> color_input n iter_limit = Ok (IZR n / IZR iter_limit).
Proof.
  intros Hi. unfold color_input. apply true_div_ok.
  apply not_0_IZR. lia.
Qed.

(** X13: the count of [MandelbrotFractal.generate] is the escape time of
    the point.  When the orbit [z_0 = c], [z_(k+1) = z_k^2 + c] is below
    [bound_limit] for every [k < n] and [z_n] is at or beyond it, with
    [n < iter_limit], or when [n = iter_limit], the loop counts exactly
    [n] and [gradient] receives [n / iter_limit]. *)
Theorem mandelbrot_escape_time (self : MandelbrotFractal.t) (c : complex) (n : nat) :
  (0 < MandelbrotFractal.iter_limit self)%Z ->
  (Z.of_nat n <= MandelbrotFractal.iter_limit self)%Z ->
  (forall k, (k < n)%nat -> cabs (orbit c c k) < MandelbrotFractal.bound_limit self) ->
  ((Z.of_nat n < MandelbrotFractal.iter_limit self)%Z ->
   MandelbrotFractal.bound_limit self <= cabs (orbit c c n)) ->
  MandelbrotFractal.num_iterations self c = Z.of_nat n /\
  MandelbrotFractal.scalar self c
  = Ok (IZR (Z.of_nat n) / IZR (MandelbrotFractal.iter_limit self)).
Proof.
  intros Hi Hn Hin Hout.
  assert (Hc : MandelbrotFractal.num_iterations self c = Z.of_nat n)
    by (now apply escape_iterations_first_escape).
  split; [exact Hc|].
  unfold MandelbrotFractal.scalar. rewrite Hc. now apply color_input_value.
Qed.

(** The orbit of [2+0i]: 2, then 6, beyond the bound 4. *)
Lemma mandelbrot_escape_time_witness :
  MandelbrotFractal.num_iterations
    {| MandelbrotFractal.bounds_real := [-2; 0.5];
       MandelbrotFractal.bounds_imag := [-1; 1];
       MandelbrotFractal.bound_limit := 4;
       MandelbrotFractal.iter_limit := 100;
       MandelbrotFractal.colormap := default_colormap |} (2, 0) = Z.of_nat 1 /\
  MandelbrotFractal.scalar
    {| MandelbrotFractal.bounds_real := [-2; 0.5];
       MandelbrotFractal.bounds_imag := [-1; 1];
       MandelbrotFractal.bound_limit := 4;
       MandelbrotFractal.iter_limit := 100;
       MandelbrotFractal.colormap := default_colormap |} (2, 0)
  = Ok (IZR (Z.of_nat 1) / IZR 100).
Proof.
  apply (@mandelbrot_escape_time
           {| MandelbrotFractal.bounds_real := [-2; 0.5];
              MandelbrotFractal.bounds_imag := [-1; 1];
              MandelbrotFractal.bound_limit := 4;
              MandelbrotFractal.iter_limit := 100;
              MandelbrotFractal.colormap := default_colormap |} (2, 0) 1).
  - simpl. lia.
  - simpl. lia.
  - intros k Hk. assert (k = 0%nat) as -> by lia. simpl.
    unfold cabs. simpl. replace (2 * 2 + 0 * 0) with (2 * 2) by ring.
    rewrite sqrt_square; lra.
  - intros _. simpl. unfold cabs, step, cadd, cmul. simpl.
    replace ((2 * 2 - 0 * 0 + 2) * (2 * 2 - 0 * 0 + 2) + (2 * 0 + 0 * 2 + 0) * (2 * 0 + 0 * 2 + 0))
      with (6 * 6) by ring.
    rewrite sqrt_square; lra.
Defined.

(** X14: the count of [JuliaFractal.generate] is the escape time of the
    coordinate.  When the orbit [z_0 = z], [z_(k+1) = z_k^2 + self.c] is
    below [bound_limit] for every [k < n] and [z_n] is at or beyond it,
    with [n < iter_limit], or when [n = iter_limit], the loop counts
    exactly [n] and [gradient] receives [n / iter_limit]. *)
Theorem julia_escape_time (self : JuliaFractal.t) (z : complex) (n : nat) :
  (0 < JuliaFractal.iter_limit self)%Z ->
  (Z.of_nat n <= JuliaFractal.iter_limit self)%Z ->
  (forall k, (k < n)%nat ->
     cabs (orbit (JuliaFractal.c self) z k) < JuliaFractal.bound_limit self) ->
  ((Z.of_nat n < JuliaFractal.iter_limit self)%Z ->
   JuliaFractal.bound_limit self <= cabs (orbit (JuliaFractal.c self) z n)) ->
  JuliaFractal.num_iterations self z = Z.of_nat n /\
  JuliaFractal.scalar self z
  = Ok (IZR (Z.of_nat n) / IZR (JuliaFractal.iter_limit self)).
Proof.
  intros Hi Hn Hin Hout.
  assert (Hc : JuliaFractal.num_iterations self z = Z.of_nat n)
    by (now apply escape_iterations_first_escape).
  split; [exact Hc|].
  unfold JuliaFractal.scalar. rewrite Hc. now apply color_input_value.
Qed.

(** The coordinate [2000+0i] is beyond the default bound 1000 at once. *)
Lemma julia_escape_time_witness :
  JuliaFractal.num_iterations default_julia (2000, 0) = Z.of_nat 0 /\
  JuliaFractal.scalar default_julia (2000, 0) = Ok (IZR (Z.of_nat 0) / IZR 100).
Proof.
  apply (@julia_escape_time default_julia (2000, 0) 0).
  - simpl. lia.
  - simpl. lia.
  - intros k Hk. lia.
  - intros _. simpl. unfold cabs. simpl.
    replace (2000 * 2000 + 0 * 0) with (2000 * 2000) by ring.
    rewrite sqrt_square; lra.
Defined.

(** ** generate: what it returns and when it raises *)

Lemma store_pixel_in_range (rgb : R * R * R) : pixel_in_range (store_pixel rgb).
Proof.
  destruct rgb as [[r g] b]. simpl. repeat split; apply int8_wrap_in_range.
Qed.

Lemma pixel_of_in_range (color : R -> R -> exc (R * R * R)) (x y : R) (p : pixel) :
  pixel_of color x y = Ok p -> pixel_in_range p.
Proof.
  unfold pixel_of. destruct (color x y) as [rgb|e]; simpl; [|discriminate].
  intros [= <-]. apply store_pixel_in_range.
Qed.

(** A buffer of a given shape whose pixels are all in range. *)
Lemma int8_buffer_of_cells (pix : buffer) (height width : nat) :
  has_shape height width pix ->
  (forall j i, (j < height)%nat -> (i < width)%nat ->
     exists p, pixel_in_range p /\ getitem pix j i = Some p) ->
  int8_buffer pix.
Proof.
  intros [Hlen Hrows] Hcells. unfold int8_buffer.
  rewrite Forall_forall in Hrows.
  apply Forall_forall. intros r Hr. apply Forall_forall. intros p Hp.
  destruct (In_nth_error _ _ Hr) as [j Hj].
  destruct (In_nth_error _ _ Hp) as [i Hi].
  assert (Hjl : (j < height)%nat).
  { rewrite <- Hlen. apply nth_error_Some. intros Hn.
    pose proof (eq_trans (eq_sym Hn) Hj) as Hx. discriminate Hx. }
  assert (Hil : (i < width)%nat).
  { rewrite <- (Hrows r Hr). apply nth_error_Some. intros Hn.
    pose proof (eq_trans (eq_sym Hn) Hi) as Hx. discriminate Hx. }
  destruct (Hcells j i Hjl Hil) as (q & Hq & Hget).
  unfold getitem, row in Hget. rewrite Hj, Hi in Hget. injection Hget as <-. exact Hq.
Qed.

Lemma color_always_raises (g : FractalGenerator) (x y : R) :
  divides_by_zero g -> color g x y = Raise ZeroDivisionError.
Proof.
  destruct g as [g|g|g]; simpl; intros Hz.
  - contradiction.
  - now apply mandelbrot_color_zero_iter_limit.
  - unfold JuliaFractal.color, JuliaFractal.scalar, color_input.
    rewrite Hz. simpl IZR. now rewrite true_div_zero.
Qed.

Lemma linspace_cons (start stop : R) (num : nat) :
  (0 < num)%nat -> exists v l, linspace start stop num = v :: l.
Proof.
  intros Hn. destruct num as [|[|div]]; [lia| |].
  - now exists start, [].
  - unfold linspace. cbn [seq map app]. eexists; eexists; reflexivity.
Qed.

(** With a colour computation that raises, the first pixel of a non-empty
    image ends [render]. *)
Lemma render_first_raise (color : R -> R -> exc (R * R * R)) (e : exception)
  (x0 x1 y0 y1 : R) (height width : nat) :
  (forall x y, color x y = Raise e) -> (0 < height)%nat -> (0 < width)%nat ->
  render color [x0; x1] [y0; y1] height width = Raise e.
Proof.
  intros Hc Hh Hw. unfold render, for_enumerate.
  destruct (linspace_cons x0 x1 Hw) as (x & xs & ->).
  destruct (linspace_cons y0 y1 Hh) as (y & ys & ->).
  cbn [for_enumerate_from]. rewrite Hc. reflexivity.
Qed.

Lemma for_enumerate_from_skip {A S : Type} (xs : list A)
  (body : nat -> A -> S -> exc S) (i : nat) (s : S) :
  (forall k x s0, body k x s0 = Ok s0) -> for_enumerate_from i xs body s = Ok s.
Proof.
  intros Hb. revert i; induction xs as [|x xs IH]; intros i; simpl; [reflexivity|].
  rewrite Hb. simpl. apply IH.
Qed.

(** An image without rows or without columns has no pixel to compute. *)
Lemma render_empty (color : R -> R -> exc (R * R * R)) (x0 x1 y0 y1 : R)
  (height width : nat) :
  height = 0%nat \/ width = 0%nat ->
  render color [x0; x1] [y0; y1] height width = Ok (zeros height width).
Proof.
  intros [-> | ->]; unfold render, for_enumerate.
  - apply for_enumerate_from_skip. intros k x s0. reflexivity.
  - reflexivity.
Qed.

(** The buffer a generator returns: its shape and its int8 values. *)
Lemma generate_ok_int8 (g : FractalGenerator) (height width : nat) :
  constructed g -> iter_limit_positive g ->
  exists pix : buffer,
    generate g height width = Ok pix /\
    has_shape height width pix /\ int8_buffer pix.
Proof.
  intros Hg Hi. pose proof Hg as (Hbx & Hby & _).
  destruct (two_values _ Hbx) as (x0 & x1 & Hx).
  destruct (two_values _ Hby) as (y0 & y1 & Hy).
  destruct (@render_ok (color g) x0 x1 y0 y1 height width) as (pix & Hrun & Hshape & Hcells).
  { intros x y. now apply color_ok. }
  exists pix. split; [rewrite generate_render, Hx, Hy; exact Hrun|].
  split; [exact Hshape|].
  apply (int8_buffer_of_cells Hshape). intros j i Hj Hi'.
  destruct (Hcells j i Hj Hi') as (p & Hp & Hget).
  exists p. split; [|exact Hget]. eapply pixel_of_in_range; eassumption.
Qed.

(** X16: an [iter_limit] of zero.  For a constructed Mandelbrot or Julia
    generator with [iter_limit = 0] and bounds of moderate size (no value
    beyond 1e150 in magnitude, so that [abs(z)] of a sample cannot
    overflow), [generate] raises [ZeroDivisionError] at the first pixel of
    every image that has one; an image without rows or without columns has
    no pixel to compute, and [generate] returns the empty buffer of the
    asked shape without dividing. *)
Theorem generate_zero_iter_limit (g : FractalGenerator) (height width : nat) :
  constructed g -> divides_by_zero g -> bounds_moderate g ->
  ((0 < height)%nat -> (0 < width)%nat ->
   generate g height width = Raise ZeroDivisionError) /\
  (height = 0%nat \/ width = 0%nat ->
   generate g height width = Ok (zeros height width)).
Proof.
  intros Hg Hz _. pose proof Hg as (Hbx & Hby & _).
  destruct (two_values _ Hbx) as (x0 & x1 & Hx).
  destruct (two_values _ Hby) as (y0 & y1 & Hy).
  rewrite generate_render, Hx, Hy. split.
  - intros Hh Hw. apply render_first_raise; [|exact Hh|exact Hw].
    intros x y. now apply color_always_raises.
  - apply render_empty.
Qed.

Lemma generate_zero_iter_limit_witness :
  ((0 < 1)%nat -> (0 < 1)%nat ->
   generate (Mandelbrot mandelbrot_iter_limit_0) 1 1 = Raise ZeroDivisionError) /\
  (1%nat = 0%nat \/ 1%nat = 0%nat ->
   generate (Mandelbrot mandelbrot_iter_limit_0) 1 1 = Ok (zeros 1 1)).
Proof.
  apply (@generate_zero_iter_limit (Mandelbrot mandelbrot_iter_limit_0) 1 1).
  - repeat split; simpl; lia.
  - reflexivity.
  - unfold bounds_moderate. simpl.
    split; repeat (apply Forall_cons; [unfold Rabs; destruct (Rcase_abs _); lra|]);
      apply Forall_nil.
Defined.

(** X17: an image one pixel wide or one pixel high samples only the lower
    bound of that axis: in [generate(height, 1)] every pixel [[j][0]] is
    computed from the first value of [bounds_x], and in
    [generate(1, width)] every pixel [[0][i]] from the first value of
    [bounds_y]; the upper bound of that axis is not used. *)
Theorem generate_single_sample (g : FractalGenerator) (n : nat) :
  constructed g -> iter_limit_positive g ->
  exists (x0 x1 y0 y1 : R) (column line : buffer),
    bounds_x g = [x0; x1] /\ bounds_y g = [y0; y1] /\
    generate g n 1 = Ok column /\
    (forall j, (j < n)%nat ->
       exists p, pixel_at g x0 (nth j (linspace y0 y1 n) 0) = Ok p /\
                 getitem column j 0 = Some p) /\
    generate g 1 n = Ok line /\
    (forall i, (i < n)%nat ->
       exists p, pixel_at g (nth i (linspace x0 x1 n) 0) y0 = Ok p /\
                 getitem line 0 i = Some p).
Proof.
  intros Hg Hi. pose proof Hg as (Hbx & Hby & _).
  destruct (two_values _ Hbx) as (x0 & x1 & Hx).
  destruct (two_values _ Hby) as (y0 & y1 & Hy).
  assert (Hc : forall x y, exists rgb, color g x y = Ok rgb)
    by (intros x y; now apply color_ok).
  destruct (@render_ok (color g) x0 x1 y0 y1 n 1 Hc) as (column & Hrun1 & _ & Hcells1).
  destruct (@render_ok (color g) x0 x1 y0 y1 1 n Hc) as (line & Hrun2 & _ & Hcells2).
  exists x0, x1, y0, y1, column, line.
  split; [exact Hx|]. split; [exact Hy|].
  split; [rewrite generate_render, Hx, Hy; exact Hrun1|].
  split; [|split; [rewrite generate_render, Hx, Hy; exact Hrun2|]].
  - intros j Hj. destruct (Hcells1 j 0%nat Hj ltac:(lia)) as (p & Hp & Hget).
    exists p. split; [exact Hp|exact Hget].
  - intros i Hi'. destruct (Hcells2 0%nat i ltac:(lia) Hi') as (p & Hp & Hget).
    exists p. split; [exact Hp|exact Hget].
Qed.

Lemma generate_single_sample_witness :
  exists (x0 x1 y0 y1 : R) (column line : buffer),
    bounds_x (Mandelbrot default_mandelbrot) = [x0; x1] /\
    bounds_y (Mandelbrot default_mandelbrot) = [y0; y1] /\
    generate (Mandelbrot default_mandelbrot) 3 1 = Ok column /\
    (forall j, (j < 3)%nat ->
       exists p, pixel_at (Mandelbrot default_mandelbrot) x0
                   (nth j (linspace y0 y1 3) 0) = Ok p /\
                 getitem column j 0 = Some p) /\
    generate (Mandelbrot default_mandelbrot) 1 3 = Ok line /\
    (forall i, (i < 3)%nat ->
       exists p, pixel_at (Mandelbrot default_mandelbrot)
                   (nth i (linspace x0 x1 3) 0) y0 = Ok p /\
                 getitem line 0 i = Some p).
Proof.
  apply (@generate_single_sample (Mandelbrot default_mandelbrot) 3).
  - repeat split; simpl; lia.
  - simpl. lia.
Defined.

(** ** PerlmanGreeneGenerator: the three passes and their sum *)

Lemma julia_init_ok (c : complex) (bounds_real bounds_imag : list R) (bound_limit : R)
  (iter_limit : Z) (colormap : list control_point) :
  length bounds_real = 2%nat -> length bounds_imag = 2%nat ->
  (2 <= length colormap)%nat ->
  JuliaFractal.init c bounds_real bounds_imag bound_limit iter_limit colormap =
  Ok {| JuliaFractal.c := c;
        JuliaFractal.bounds_real := bounds_real;
        JuliaFractal.bounds_imag := bounds_imag;
        JuliaFractal.bound_limit := bound_limit;
        JuliaFractal.iter_limit := iter_limit;
        JuliaFractal.colormap := colormap |}.
Proof.
  intros Hr Hi Hc. unfold JuliaFractal.init.
  apply Nat.eqb_eq in Hr, Hi. apply Nat.leb_le in Hc.
  rewrite Hr, Hi, Hc. reflexivity.
Qed.

(** For a positive offset [corrupt] always returns a buffer, of the shape
    of its argument. *)
Lemma corrupt_positive_offset (src : buffer) (offset : Z) (axis : string)
  (height width : nat) :
  axis = "x"%string \/ axis = "y"%string ->
  has_shape height width src -> int8_buffer src -> (0 < offset)%Z ->
  exists res : buffer,
    corrupt src offset axis = Ok (Some res) /\ has_shape height width res.
Proof.
  intros Hax Hshape Hr Ho.
  assert (Hy : exists res : buffer,
             corrupt src offset "y" = Ok (Some res) /\ has_shape height width res).
  { destruct (Z.lt_ge_cases offset (Z.of_nat height)) as [Hlt|Hge].
    - destruct (@corrupt_y_shift_add src offset height width Hshape Hr ltac:(lia))
        as (res & Hrun & Hres & _).
      now exists res.
    - exists src. split; [|exact Hshape].
      destruct Hshape as [Hlen _]. subst height.
      unfold corrupt. simpl. rewrite overlay_beyond by exact Hge. simpl.
      now rewrite add_buffer_zeros_like. }
  destruct Hax as [-> | ->]; [rewrite corrupt_x_eq_y|]; exact Hy.
Qed.

Lemma corrupted_ok (src : buffer) (offset : Z) (axis : string) (height width : nat) :
  axis = "x"%string \/ axis = "y"%string ->
  has_shape height width src -> int8_buffer src -> (0 < offset)%Z ->
  exists res : buffer,
    PerlmanGreeneGenerator.corrupted src offset axis = Ok res /\
    has_shape height width res.
Proof.
  intros Hax Hshape Hr Ho.
  destruct (corrupt_positive_offset Hax Hshape Hr Ho) as (res & Hrun & Hres).
  exists res. unfold PerlmanGreeneGenerator.corrupted. rewrite Hrun. now split.
Qed.

(** X20: the window of a pass.  Whatever angle is drawn, the lower bounds
    [cos(radians) * 0.5 - 0.5] and [sin(radians) * 0.5 - 0.5] lie in
    [-1, 0]; with sizes drawn from [0.75, 1.5] each upper bound exceeds its
    lower bound by at least 0.75 and is at most 1.5, so the bounds handed
    to the generators are always ordered, min below max. *)
Theorem pass_window (lo hi : Z) (d : PerlmanGreeneGenerator.draws) :
  PerlmanGreeneGenerator.drawn lo hi d ->
  exists a b a' b' : R,
    PerlmanGreeneGenerator.bounds_real d = [a; b] /\
    PerlmanGreeneGenerator.bounds_imag d = [a'; b'] /\
    -1 <= a <= 0 /\ a + 0.75 <= b <= 1.5 /\
    -1 <= a' <= 0 /\ a' + 0.75 <= b' <= 1.5.
Proof.
  intros (_ & Hrs & His & _).
  unfold PerlmanGreeneGenerator.bounds_real, PerlmanGreeneGenerator.bounds_imag,
    PerlmanGreeneGenerator.real_bound, PerlmanGreeneGenerator.imag_bound.
  pose proof (COS_bound (PerlmanGreeneGenerator.radians d)) as Hcos.
  pose proof (SIN_bound (PerlmanGreeneGenerator.radians d)) as Hsin.
  do 4 eexists. split; [reflexivity|]. split; [reflexivity|].
  repeat split; lra.
Qed.

Lemma sample_draws_drawn (lo hi offset : Z) :
  (lo <= offset <= hi)%Z -> PerlmanGreeneGenerator.drawn lo hi (sample_draws offset).
Proof.
  intros Ho. unfold PerlmanGreeneGenerator.drawn, sample_draws. simpl.
  repeat split; try lra; try lia.
Qed.

Lemma pass_window_witness :
  exists a b a' b' : R,
    PerlmanGreeneGenerator.bounds_real (sample_draws 40) = [a; b] /\
    PerlmanGreeneGenerator.bounds_imag (sample_draws 40) = [a'; b'] /\
    -1 <= a <= 0 /\ a + 0.75 <= b <= 1.5 /\
    -1 <= a' <= 0 /\ a' + 0.75 <= b' <= 1.5.
Proof.
  apply (@pass_window 40 70 (sample_draws 40)).
  apply sample_draws_drawn. lia.
Defined.

(** X21: the pixel stage of [PerlmanGreeneGenerator.generate] never
    fails.  For every height and width and every outcome of the random
    draws within their ranges, the three constructions pass validation,
    the three renders and corruptions return (an offset at or beyond the
    height included), and the sum [pix_mandel2 + pix_mandel1 + pix_julia1]
    is an int8 buffer of shape (height, width, 3). *)
Theorem perlman_greene_pixels (d1 d2 d3 : PerlmanGreeneGenerator.draws)
  (height width : nat) :
  PerlmanGreeneGenerator.drawn 40 70 d1 ->
  PerlmanGreeneGenerator.drawn 50 100 d2 ->
  PerlmanGreeneGenerator.drawn 50 100 d3 ->
  exists pix : buffer,
    PerlmanGreeneGenerator.pixels d1 d2 d3 height width = Ok pix /\
    has_shape height width pix /\ int8_buffer pix.
Proof.
  intros H1 H2 H3.
  destruct H1 as (_ & _ & _ & _ & Hi1 & _ & _ & _ & _ & Ho1).
  destruct H2 as (_ & _ & _ & _ & Hi2 & _ & _ & _ & _ & Ho2).
  destruct H3 as (_ & _ & _ & _ & Hi3 & _ & _ & _ & _ & Ho3).
  unfold PerlmanGreeneGenerator.pixels.
  rewrite !mandelbrot_init_ok by (simpl; lia). cbn [bind].
  set (m1 := {| MandelbrotFractal.bounds_real := PerlmanGreeneGenerator.bounds_real d1 |}).
  set (m2 := {| MandelbrotFractal.bounds_real := PerlmanGreeneGenerator.bounds_real d2 |}).
  destruct (@generate_ok_int8 (Mandelbrot m1) height width)
    as (p1 & Hg1 & Hs1 & Hr1); [repeat split; simpl; lia|simpl; lia|].
  destruct (@generate_ok_int8 (Mandelbrot m2) height width)
    as (p2 & Hg2 & Hs2 & Hr2); [repeat split; simpl; lia|simpl; lia|].
  simpl in Hg1, Hg2. rewrite Hg1. cbn [bind].
  destruct (@corrupted_ok p1 (PerlmanGreeneGenerator.offset d1) "y" height width)
    as (c1 & Hc1 & Hcs1); [now right|assumption|assumption|lia|].
  rewrite Hc1. cbn [bind]. rewrite Hg2. cbn [bind].
  destruct (@corrupted_ok p2 (PerlmanGreeneGenerator.offset d2) "x" height width)
    as (c2 & Hc2 & Hcs2); [now left|assumption|assumption|lia|].
  rewrite Hc2. cbn [bind].
  rewrite julia_init_ok by (simpl; lia). cbn [bind].
  set (j1 := {| JuliaFractal.c := (-0.8, 0.156) |}).
  destruct (@generate_ok_int8 (Julia j1) height width)
    as (p3 & Hg3 & Hs3 & Hr3); [repeat split; simpl; lia|simpl; lia|].
  simpl in Hg3. rewrite Hg3. cbn [bind].
  destruct (@corrupted_ok p3 (PerlmanGreeneGenerator.offset d3) "x" height width)
    as (c3 & Hc3 & Hcs3); [now left|assumption|assumption|lia|].
  rewrite Hc3. cbn [bind].
  eexists; split; [reflexivity|]. split.
  - apply has_shape_add_buffer; [apply has_shape_add_buffer|]; assumption.
  - apply int8_buffer_add_buffer.
Qed.

Lemma perlman_greene_pixels_witness :
  exists pix : buffer,
    PerlmanGreeneGenerator.pixels (sample_draws 40) (sample_draws 50) (sample_draws 100)
      64 48 = Ok pix /\
    has_shape 64 48 pix /\ int8_buffer pix.
Proof.
  apply (@perlman_greene_pixels (sample_draws 40) (sample_draws 50) (sample_draws 100)
           64 48);
    apply sample_draws_drawn; lia.
Defined.

(** X22: the colormap of every pass meets what the docstring of
    [gradient] asks of a map: four control points with locations and
    colour values in [0, 1] (each colour value below 1/2), a black point
    at 0.0 and at 1.0, sorted by location. *)
Theorem pass_colormap_valid (lo hi : Z) (d : PerlmanGreeneGenerator.draws) :
  PerlmanGreeneGenerator.drawn lo hi d ->
  valid_gradient_map (PerlmanGreeneGenerator.colormap d) /\
  length (PerlmanGreeneGenerator.colormap d) = 4%nat /\
  Forall (fun p => red p < 1/2 /\ green p < 1/2 /\ blue p < 1/2)
    (PerlmanGreeneGenerator.colormap d).
Proof.
  intros (_ & _ & _ & _ & _ & Hl1 & Hc1 & Hl2 & Hc2 & _).
  unfold PerlmanGreeneGenerator.colormap.
  destruct (PerlmanGreeneGenerator.random1 d) as [[r1 g1] b1].
  destruct (PerlmanGreeneGenerator.random2 d) as [[r2 g2] b2].
  simpl in Hc1, Hc2. destruct Hc1 as (Hr1 & Hg1 & Hb1), Hc2 as (Hr2 & Hg2 & Hb2).
  split; [|split; [reflexivity|]].
  - split; [|split; [|split]].
    + repeat (apply Forall_cons;
              [unfold location, color_in_unit, red, green, blue; simpl;
               repeat split; lra|]).
      apply Forall_nil.
    + eexists. left. reflexivity.
    + eexists. right; right; right; left. reflexivity.
    + simpl. unfold location. simpl. repeat split; lra.
  - repeat (apply Forall_cons; [unfold red, green, blue; simpl; repeat split; lra|]).
    apply Forall_nil.
Qed.

Lemma pass_colormap_valid_witness :
  valid_gradient_map (PerlmanGreeneGenerator.colormap (sample_draws 40)) /\
  length (PerlmanGreeneGenerator.colormap (sample_draws 40)) = 4%nat /\
  Forall (fun p => red p < 1/2 /\ green p < 1/2 /\ blue p < 1/2)
    (PerlmanGreeneGenerator.colormap (sample_draws 40)).
Proof.
  apply (@pass_colormap_valid 40 70 (sample_draws 40)).
  apply sample_draws_drawn. lia.
Defined.

(** ** Symmetries of the escape-time counts *)

Lemma cabs_conj (z : complex) : cabs (conj z) = cabs z.
Proof.
  unfold cabs, conj. simpl. f_equal. ring.
Qed.

Lemma step_conj (c z : complex) : step (conj c) (conj z) = conj (step c z).
Proof.
  unfold step, cadd, cmul, conj. simpl. f_equal; ring.
Qed.

Lemma escape_loop_conj (fuel : nat) (bound_limit : R) (iter_limit : Z)
  (c z : complex) (n : Z) :
  escape_loop fuel bound_limit iter_limit (conj c) (conj z) n
  = escape_loop fuel bound_limit iter_limit c z n.
Proof.
  revert z n; induction fuel as [|fuel IH]; intros z n; simpl; [reflexivity|].
  rewrite cabs_conj, step_conj.
  destruct (Rlt_dec (cabs z) bound_limit); [|reflexivity].
  destruct (n <? iter_limit)%Z; [apply IH|reflexivity].
Qed.

(** X23: the Mandelbrot count is symmetric about the real axis: the
    coordinates [x + yi] and [x - yi] are counted the same number of
    iterations and hand the same scalar to [gradient], so the image of
    bounds symmetric in the imaginary axis is a mirror image of itself. *)
Theorem mandelbrot_mirror_symmetry (self : MandelbrotFractal.t) (x y : R) :
  MandelbrotFractal.num_iterations self (x, - y)
  = MandelbrotFractal.num_iterations self (x, y) /\
  MandelbrotFractal.color self x (- y) = MandelbrotFractal.color self x y.
Proof.
  assert (Hn : MandelbrotFractal.num_iterations self (x, - y)
               = MandelbrotFractal.num_iterations self (x, y)).
  { unfold MandelbrotFractal.num_iterations, escape_iterations.
    apply (escape_loop_conj _ _ _ (x, y) (x, y)). }
  split; [exact Hn|].
  unfold MandelbrotFractal.color, MandelbrotFractal.scalar. now rewrite Hn.
Qed.

Lemma cabs_copp (z : complex) : cabs (copp z) = cabs z.
Proof.
  unfold cabs, copp. simpl. f_equal. ring.
Qed.

Lemma step_copp (c z : complex) : step c (copp z) = step c z.
Proof.
  unfold step, cadd, cmul, copp. simpl. f_equal; ring.
Qed.

(** X24: the Julia count is symmetric about the origin: the coordinates
    [z] and [-z] are counted the same number of iterations, for every
    constant [c], and hand the same scalar to [gradient]. *)
Theorem julia_point_symmetry (self : JuliaFractal.t) (x y : R) :
  JuliaFractal.num_iterations self (- x, - y) = JuliaFractal.num_iterations self (x, y) /\
  JuliaFractal.color self (- x) (- y) = JuliaFractal.color self x y.
Proof.
  assert (Hn : JuliaFractal.num_iterations self (- x, - y)
               = JuliaFractal.num_iterations self (x, y)).
  { unfold JuliaFractal.num_iterations, escape_iterations.
    change (- x, - y) with (copp (x, y)).
    destruct (Z.to_nat (JuliaFractal.iter_limit self)) as [|fuel]; [reflexivity|].
    simpl escape_loop. now rewrite cabs_copp, step_copp. }
  split; [exact Hn|].
  unfold JuliaFractal.color, JuliaFractal.scalar. now rewrite Hn.
Qed.
